(** * split-pro: the balance ledger, the user router and the Splitwise import page

    A shallow embedding of the tRPC user router ([inviteFriend],
    [getBalancesWithFriend], [deleteExpense], [deleteFriend],
    [importUsersFromSplitWise]), of [handleFileChange] of the page
    [src/pages/import-splitwise.tsx], and of [shuffleArray].  The relational
    store behind Prisma is modelled as tables of rows, each table a list in
    storage order; the order in which the store answers a query for many
    rows is left open where a property depends on it ([AnyOrder]). *)

From Stdlib Require Import ZArith List String Ascii Lia Permutation Sorted.
From stdpp Require Import base decidable option list strings.

Import ListNotations.
Local Open Scope Z_scope.
Local Open Scope string_scope.
Local Open Scope list_scope.

(** ** The store

    The Prisma schema is not part of the embedded sources.  Each table is
    modelled from the spec's data model with the columns the router and the
    pages read and write. *)

(** Modelled from the spec: the [Balance] table of the missing schema,
    "tuple (userId, friendId, currency, amount)"; the router compares
    [amount] with 0 and the pages treat it as a bigint. *)
Module Balance.
Record t := mk { userId : Z; friendId : Z; currency : string; amount : Z }.

#[global] Instance eq_dec : EqDecision t.
Proof. solve_decision. Defined.

Definition key (b : t) : Z * Z * string := (userId b, friendId b, currency b).
End Balance.

(** Modelled from the spec: the [User] table of the missing schema,
    "identity (id, email, name, ...)"; the router treats name and email as
    nullable. *)
Module User.
Record t := mk { id : Z; name : option string; email : option string }.

#[global] Instance eq_dec : EqDecision t.
Proof. solve_decision. Defined.
End User.

(** Modelled from the spec: the [ExpenseParticipant] table of the missing
    schema, "(userId, share amount)" per expense, unique on
    (expenseId, userId) as the router's [findUnique] names it. *)
Module ExpenseParticipant.
Record t := mk { expenseId : string; userId : Z; amount : Z }.

#[global] Instance eq_dec : EqDecision t.
Proof. solve_decision. Defined.
End ExpenseParticipant.

(** Modelled from the spec: the [Expense] table of the missing schema: the
    paying user, the amount and its currency, and [deletedBy] for the soft
    delete. *)
Module Expense.
Record t := mk {
  id : string;
  paidBy : Z;
  currency : string;
  amount : Z;
  deletedBy : option Z
}.

#[global] Instance eq_dec : EqDecision t.
Proof. solve_decision. Defined.
End Expense.

(** Modelled from the spec: the [Group] table of the missing schema, with
    the external id an imported group is matched by. *)
Module Group.
Record t := mk { id : Z; name : string; splitwiseGroupId : option Z }.

#[global] Instance eq_dec : EqDecision t.
Proof. solve_decision. Defined.
End Group.

(** Modelled from the spec: the membership table of the missing schema. *)
Module GroupUser.
Record t := mk { groupId : Z; userId : Z }.

#[global] Instance eq_dec : EqDecision t.
Proof. solve_decision. Defined.
End GroupUser.

(** The tables the procedures reach through [db], and the mails handed to
    the mailer. *)
Record Db := mkDb {
  user : list User.t;
  balance : list Balance.t;
  expense : list Expense.t;
  expenseParticipant : list ExpenseParticipant.t;
  group : list Group.t;
  groupUser : list GroupUser.t;
  outbox : list (string * string)
}.

Definition emptyDb : Db := mkDb [] [] [] [] [] [] [].

Definition set_balance (f : list Balance.t -> list Balance.t) (d : Db) : Db :=
  mkDb (user d) (f (balance d)) (expense d) (expenseParticipant d)
       (group d) (groupUser d) (outbox d).

Definition set_user (f : list User.t -> list User.t) (d : Db) : Db :=
  mkDb (f (user d)) (balance d) (expense d) (expenseParticipant d)
       (group d) (groupUser d) (outbox d).

Definition set_expense (f : list Expense.t -> list Expense.t) (d : Db) : Db :=
  mkDb (user d) (balance d) (f (expense d)) (expenseParticipant d)
       (group d) (groupUser d) (outbox d).

Definition set_expenseParticipant
    (f : list ExpenseParticipant.t -> list ExpenseParticipant.t) (d : Db) : Db :=
  mkDb (user d) (balance d) (expense d) (f (expenseParticipant d))
       (group d) (groupUser d) (outbox d).

Definition set_group (f : list Group.t -> list Group.t) (d : Db) : Db :=
  mkDb (user d) (balance d) (expense d) (expenseParticipant d)
       (f (group d)) (groupUser d) (outbox d).

Definition set_groupUser (f : list GroupUser.t -> list GroupUser.t) (d : Db) : Db :=
  mkDb (user d) (balance d) (expense d) (expenseParticipant d)
       (group d) (f (groupUser d)) (outbox d).

Definition set_outbox (f : list (string * string) -> list (string * string)) (d : Db) : Db :=
  mkDb (user d) (balance d) (expense d) (expenseParticipant d)
       (group d) (groupUser d) (f (outbox d)).

(** ** Procedures: state passing with tRPC errors *)

Inductive TRPCCode := UNAUTHORIZED | BAD_REQUEST | NOT_FOUND.

Record TRPCError := mkError { code : TRPCCode; message : string }.

(** Code that writes a state and may throw: it returns the state it leaves
    behind together with either what it threw or its result.  A write made
    before a throw stays. *)
Definition StateErr (S E A : Type) : Type := S -> S * (E + A).

Definition ret {S E A} (a : A) : StateErr S E A := fun s => (s, inr a).

Definition throw {S E A} (e : E) : StateErr S E A := fun s => (s, inl e).

Definition bind {S E A B} (m : StateErr S E A) (k : A -> StateErr S E B)
    : StateErr S E B :=
  fun s => match m s with
           | (s', inl e) => (s', inl e)
           | (s', inr a) => k a s'
           end.

Declare Scope proc_scope.
Delimit Scope proc_scope with proc.
Notation "x <- m ;; k" := (bind m (fun x => k))
  (at level 100, m at next level, right associativity) : proc_scope.
Notation "m ;; k" := (bind m (fun _ => k))
  (at level 100, right associativity) : proc_scope.
Local Open Scope proc_scope.

Definition gets {S E A} (f : S -> A) : StateErr S E A := fun s => (s, inr (f s)).

Definition modify {S E} (f : S -> S) : StateErr S E unit := fun s => (f s, inr tt).

(** A computation that only throws or returns. *)
Definition lift {S E A} (r : E + A) : StateErr S E A := fun s => (s, r).

Notation "'let*' x ':=' m 'in' k" :=
  (match m with inl e => inl e | inr x => k end)
  (at level 10, x name, m at level 100, k at level 200).

(** A tRPC procedure over the store. *)
Definition Proc (A : Type) : Type := StateErr Db TRPCError A.

(** Prisma's [findMany] with a [where] clause and no [orderBy]: the rows
    that match.  The store fixes no order on such an answer; here the rows
    come in storage order, one of the orders it may answer in, and
    [AnyOrder.findMany] below leaves the order open. *)
Definition findMany {R} (tbl : Db -> list R) (P : R -> Prop)
    `{!forall r, Decision (P r)} : Proc (list R) :=
  gets (fun d => filter P (tbl d)).

(** Prisma's [findUnique]: the row that matches the unique key, or null. *)
Definition findUnique {R} (tbl : Db -> list R) (P : R -> Prop)
    `{!forall r, Decision (P r)} : Proc (option R) :=
  gets (fun d => head (filter P (tbl d))).

(** Prisma's [balance.deleteMany]: every matching row is removed. *)
Definition balance_deleteMany (P : Balance.t -> Prop)
    `{!forall r, Decision (P r)} : Proc unit :=
  modify (set_balance (filter (fun b => ~ P b))).

(** ** The split service

    The router imports [deleteExpense] from
    [~/server/api/services/splitService], whose code is not part of the
    embedded sources; the service is modelled from the specification. *)

Module SplitService.

(** Modelled from the spec: the ledger's write to one balance row, missing
    with the split service.  "Per-(user, friend, currency) signed running
    total": the row of the key is created with the contribution when the
    table has none, and the contribution is added to it otherwise. *)
Definition upsert_increment (u f : Z) (c : string) (delta : Z)
    (t : list Balance.t) : list Balance.t :=
  if decide (Exists (fun b => Balance.key b = (u, f, c)) t) then
    (fun b => if decide (Balance.key b = (u, f, c))
              then Balance.mk u f c (Balance.amount b + delta)
              else b) <$> t
  else t ++ [Balance.mk u f c delta].

(** Modelled from the spec: "writes both mirrored rows atomically", missing
    with the split service.  The payer's row towards the participant takes
    the share, the participant's row towards the payer its negation
    (positive = the counterparty owes the user). *)
Definition upsert_pair (paidBy participant : Z) (c : string) (share : Z)
    (t : list Balance.t) : list Balance.t :=
  upsert_increment participant paidBy c (- share)
    (upsert_increment paidBy participant c share t).

(** Modelled from the spec: [applyExpenseDelta(expense, participants,
    paidBy)], missing with the split service.  It "recomputes the signed
    contribution of a paying user and each participant into every affected
    (payer, participant, currency) balance pair"; a balance is between two
    users, so the payer's own share touches no row.  [sign] is 1 to apply
    a contribution and -1 to reverse it. *)
Definition applyExpenseDelta (sign : Z) (c : string)
    (participants : list (Z * Z)) (paidBy : Z)
    (t : list Balance.t) : list Balance.t :=
  foldl (fun t p => if decide (fst p = paidBy) then t
                    else upsert_pair paidBy (fst p) c (sign * snd p) t)
        t participants.

(** Modelled from the spec: the [expenseParticipants] relation of the
    missing schema, an expense "owns a list of ExpenseParticipant records
    (userId, share amount)". *)
Definition participants_of (expenseId : string)
    (ps : list ExpenseParticipant.t) : list (Z * Z) :=
  (fun p => (ExpenseParticipant.userId p, ExpenseParticipant.amount p))
    <$> filter (fun p => ExpenseParticipant.expenseId p = expenseId) ps.

(** Modelled from the spec: expense creation, missing with the split
    service.  "Balances are created/updated transactionally whenever an
    Expense is created": the expense and its participant records are
    stored and the contribution is applied. *)
Definition createExpense (id : string) (paidBy : Z) (c : string) (amount : Z)
    (participants : list (Z * Z)) : Proc unit :=
  modify (fun d =>
    set_balance (applyExpenseDelta 1 c participants paidBy)
      (set_expenseParticipant
         (fun ps => ps ++ ((fun p => ExpenseParticipant.mk id (fst p) (snd p))
                           <$> participants))
         (set_expense (fun es => es ++ [Expense.mk id paidBy c amount None]) d))).

(** Modelled from the spec: the service's [deleteExpense(expenseId,
    deletedBy)], missing with the split service.  NotFound when the
    expense is absent; "re-deleting an already-deleted expense is a no-op";
    otherwise "the deleting user [is] recorded; the reversal of its balance
    contribution runs unconditionally", and the expense row stays (soft
    delete). *)
Definition deleteExpense (expenseId : string) (deletedBy : Z) : Proc unit :=
  expense <- findUnique expense (fun e => Expense.id e = expenseId) ;;
  match expense with
  | None => throw (mkError NOT_FOUND "Expense not found")
  | Some e =>
      match Expense.deletedBy e with
      | Some _ => ret tt
      | None =>
          modify (fun d =>
            set_balance
              (applyExpenseDelta (-1) (Expense.currency e)
                 (participants_of expenseId (expenseParticipant d))
                 (Expense.paidBy e))
              (set_expense
                 (fmap (fun x => if decide (Expense.id x = expenseId)
                                 then Expense.mk (Expense.id x) (Expense.paidBy x)
                                        (Expense.currency x) (Expense.amount x)
                                        (Some deletedBy)
                                 else x)) d))
      end
  end.

(** Modelled from the spec: expense editing, missing with the split
    service.  "Editing an expense must first reverse its previous
    contribution before applying the new one." *)
Definition editExpense (id : string) (paidBy : Z) (c : string) (amount : Z)
    (participants : list (Z * Z)) : Proc unit :=
  expense <- findUnique expense (fun e => Expense.id e = id) ;;
  match expense with
  | None => throw (mkError NOT_FOUND "Expense not found")
  | Some e =>
      modify (fun d =>
        set_balance
          (fun t => applyExpenseDelta 1 c participants paidBy
                      (applyExpenseDelta (-1) (Expense.currency e)
                         (participants_of id (expenseParticipant d))
                         (Expense.paidBy e) t))
          (set_expenseParticipant
             (fun ps => filter (fun p => ExpenseParticipant.expenseId p <> id) ps
                        ++ ((fun p => ExpenseParticipant.mk id (fst p) (snd p))
                            <$> participants))
             (set_expense
                (fmap (fun x => if decide (Expense.id x = id)
                                then Expense.mk id paidBy c amount (Expense.deletedBy x)
                                else x)) d)))
  end.

(** Modelled from the spec: a settlement, missing with the split service:
    "a special expense-like record that zeroes or reduces an outstanding
    balance", here an expense paid by [payer] whose one participant is
    [receiver]. *)
Definition settle (id : string) (payer receiver : Z) (c : string)
    (amount : Z) : Proc unit :=
  createExpense id payer c amount [(receiver, amount)].

End SplitService.

(** ** The mailer and the user table *)

(** [sendInviteEmail(email, inviterName)]: the mail is handed to the mailer;
    a failure to send is logged and never reaches the caller. *)
Definition sendInviteEmail (email inviter : string) : Proc unit :=
  modify (set_outbox (fun o => o ++ [(email, inviter)])).

(** The id the store gives a new row (an autoincrement column): one more
    than the largest id in use. *)
Definition next_user_id (us : list User.t) : Z :=
  1 + foldr Z.max 0 (User.id <$> us).

(** Prisma's [user.create]. *)
Definition user_create (email name : option string) : Proc User.t :=
  fun d =>
    let u := User.mk (next_user_id (user d)) name email in
    (set_user (fun us => us ++ [u]) d, inr u).

(** JavaScript's [String.prototype.split] with a one-character separator:
    the pieces between the separators, in order. *)
Fixpoint split (sep : ascii) (s : string) : list string :=
  match s with
  | EmptyString => [EmptyString]
  | String ch rest =>
      if Ascii.eqb ch sep then EmptyString :: split sep rest
      else match split sep rest with
           | piece :: pieces => String ch piece :: pieces
           | [] => [String ch EmptyString]
           end
  end.

(** ** The Splitwise import service

    The records the router validates its input against
    ([SplitwiseUserSchema], [SplitwiseGroupSchema] of [~/types]) and the two
    service functions it calls are not part of the embedded sources. *)

(** Modelled from the spec: an entry of the "external balance list per
    currency" of the missing [~/types]; the page reads [currency_code] and
    [amount], a decimal in a string. *)
Module SplitwiseBalance.
Record t := mk { currency_code : string; amount : string }.
End SplitwiseBalance.

(** Modelled from the spec: the external friend record of the missing
    [~/types], with the email it is matched by and its balance list. *)
Module SplitwiseUser.
Record t := mk {
  id : Z;
  email : string;
  first_name : string;
  balance : list SplitwiseBalance.t
}.
End SplitwiseUser.

(** Modelled from the spec: the external group record of the missing
    [~/types], "carrying members and an id". *)
Module SplitwiseGroup.
Record t := mk { id : Z; name : string; members : list SplitwiseUser.t }.
End SplitwiseGroup.

Module SplitwiseImport.

Section Amounts.
(** The reading of an external amount (a decimal in a string) as a ledger
    amount; the service takes it from a helper outside the embedded
    sources. *)
Variable toAmount : string -> Z.

(** Modelled from the spec: the write of an imported balance, missing with
    the import service.  "Existing rows are updated in place rather than
    re-inserted": the row of the key takes the external amount, and is
    created with it when the table has none. *)
Definition upsert_set (key : Z * Z * string) (v : Z) (t : list Balance.t)
    : list Balance.t :=
  if decide (Exists (fun b => Balance.key b = key) t) then
    (fun b => if decide (Balance.key b = key)
              then Balance.mk (fst (fst key)) (snd (fst key)) (snd key) v
              else b) <$> t
  else t ++ [Balance.mk (fst (fst key)) (snd (fst key)) (snd key) v].

(** Modelled from the spec: "creates (or reuses) a local user by email",
    missing with the import service. *)
Definition findOrCreateUser (email name : string) : Proc User.t :=
  existing <- findUnique user (fun u => User.email u = Some email) ;;
  match existing with
  | Some u => ret u
  | None => user_create (Some email) (Some name)
  end.

(** The id the store gives a new group row (an autoincrement column). *)
Definition next_group_id (gs : list Group.t) : Z :=
  1 + foldr Z.max 0 (Group.id <$> gs).

(** Modelled from the spec: "creates a local group", "matching is by stable
    external identity (... external group id for groups)", missing with the
    import service. *)
Definition findOrCreateGroup (externalId : Z) (name : string) : Proc Group.t :=
  existing <- findUnique group (fun g => Group.splitwiseGroupId g = Some externalId) ;;
  match existing with
  | Some g => ret g
  | None =>
      fun d =>
        let g := Group.mk (next_group_id (group d)) name (Some externalId) in
        (set_group (fun gs => gs ++ [g]) d, inr g)
  end.

(** Modelled from the spec: a membership row, written unless the table has
    it, missing with the import service. *)
Definition ensureMember (groupId userId : Z) : Proc unit :=
  existing <- findUnique groupUser
    (fun m => GroupUser.groupId m = groupId /\ GroupUser.userId m = userId) ;;
  match existing with
  | Some _ => ret tt
  | None => modify (set_groupUser (fun ms => ms ++ [GroupUser.mk groupId userId]))
  end.

(** [for (const x of l) { await body(x) }] *)
Fixpoint for_each {A} (l : list A) (body : A -> Proc unit) : Proc unit :=
  match l with
  | [] => ret tt
  | x :: rest => body x ;; for_each rest body
  end.

(** Modelled from the spec: the two rows an external balance entry stands
    for, missing with the import service: "mirrored balance rows matching
    the external amounts and currencies, signed consistently with the local
    ledger's convention (positive = counterparty owes the importing
    user)". *)
Definition balance_writes (currentUserId friendId : Z) (b : SplitwiseBalance.t)
    : list (Z * Z * string * Z) :=
  [ (currentUserId, friendId, SplitwiseBalance.currency_code b,
     toAmount (SplitwiseBalance.amount b));
    (friendId, currentUserId, SplitwiseBalance.currency_code b,
     - toAmount (SplitwiseBalance.amount b)) ].

(** One write (key, amount) to the balance table. *)
Definition apply_write (t : list Balance.t) (w : Z * Z * string * Z)
    : list Balance.t :=
  upsert_set (fst w) (snd w) t.

(** Modelled from the spec: [importUserBalanceFromSplitWise], missing with
    the import service.  "For each retained friend, creates (or reuses) a
    local user by email and establishes mirrored balance rows matching the
    external amounts and currencies." *)
Definition importUserBalanceFromSplitWise (currentUserId : Z)
    (splitWiseUsers : list SplitwiseUser.t) : Proc unit :=
  for_each splitWiseUsers (fun friend =>
    dbUser <- findOrCreateUser (SplitwiseUser.email friend)
                               (SplitwiseUser.first_name friend) ;;
    modify (set_balance (fun t =>
      foldl apply_write t
        (flat_map (balance_writes currentUserId (User.id dbUser))
                  (SplitwiseUser.balance friend))))).

(** Modelled from the spec: [importGroupFromSplitwise], missing with the
    import service.  "For each retained group, creates a local group and
    membership rows for each external member, reusing existing local users
    by email where already present." *)
Definition importGroupFromSplitwise (currentUserId : Z)
    (splitWiseGroups : list SplitwiseGroup.t) : Proc unit :=
  for_each splitWiseGroups (fun g =>
    dbGroup <- findOrCreateGroup (SplitwiseGroup.id g) (SplitwiseGroup.name g) ;;
    for_each (SplitwiseGroup.members g) (fun member =>
      dbUser <- findOrCreateUser (SplitwiseUser.email member)
                                 (SplitwiseUser.first_name member) ;;
      ensureMember (Group.id dbGroup) (User.id dbUser))).
End Amounts.

End SplitwiseImport.

(** ** The user router *)

Section UserRouter.
(** [ctx.session.user] *)
Variable session_user_id : Z.
Variable session_user_name : option string.
Variable session_user_email : option string.

(** [inviteFriend] *)
Definition inviteFriend (input_email : string)
    (input_sendInviteEmail : option bool) : Proc User.t :=
  friend <- findUnique user (fun u => User.email u = Some input_email) ;;
  match friend with
  | Some friend => ret friend
  | None =>
      user <- user_create (Some input_email) (head (split "@" input_email)) ;;
      (if default false input_sendInviteEmail then
         sendInviteEmail input_email
           (default (default "" session_user_email) session_user_name)
       else ret tt) ;;
      ret user
  end.

(** [getBalancesWithFriend] *)
Definition getBalancesWithFriend (input_friendId : Z) : Proc (list Balance.t) :=
  balances <- findMany balance
    (fun b => Balance.userId b = session_user_id
              /\ Balance.friendId b = input_friendId
              /\ Balance.amount b <> 0) ;;
  ret balances.

(** [deleteExpense] *)
Definition deleteExpense (input_expenseId : string) : Proc unit :=
  expenseParticipant <- findUnique expenseParticipant
    (fun p => ExpenseParticipant.expenseId p = input_expenseId
              /\ ExpenseParticipant.userId p = session_user_id) ;;
  match expenseParticipant with
  | None =>
      throw (mkError UNAUTHORIZED "You are not the participant of the expense")
  | Some _ => SplitService.deleteExpense input_expenseId session_user_id
  end.

(** [deleteFriend] *)
Definition deleteFriend (input_friendId : Z) : Proc unit :=
  friendBalances <- findMany balance
    (fun b => Balance.userId b = session_user_id
              /\ Balance.friendId b = input_friendId
              /\ Balance.amount b <> 0) ;;
  if (0 <? length friendBalances)%nat then
    throw (mkError BAD_REQUEST "You have outstanding balances with this friend")
  else
    balance_deleteMany
      (fun b => Balance.userId b = input_friendId
                /\ Balance.friendId b = session_user_id) ;;
    balance_deleteMany
      (fun b => Balance.friendId b = input_friendId
                /\ Balance.userId b = session_user_id).

(** [importUsersFromSplitWise] *)
Definition importUsersFromSplitWise (toAmount : string -> Z)
    (input_usersWithBalance : list SplitwiseUser.t)
    (input_groups : list SplitwiseGroup.t) : Proc unit :=
  SplitwiseImport.importUserBalanceFromSplitWise toAmount session_user_id
    input_usersWithBalance ;;
  SplitwiseImport.importGroupFromSplitwise session_user_id input_groups.
End UserRouter.

(** ** Ledger operations *)

(** The operations that write the balance table: expense creation, editing
    and deletion, settlement, and friend removal. *)
Inductive LedgerOp :=
| CreateExpense (id : string) (paidBy : Z) (c : string) (amount : Z)
                (participants : list (Z * Z))
| EditExpense (id : string) (paidBy : Z) (c : string) (amount : Z)
              (participants : list (Z * Z))
| DeleteExpense (actor : Z) (expenseId : string)
| Settle (id : string) (payer receiver : Z) (c : string) (amount : Z)
| DeleteFriend (actor friendId : Z).

Definition run_op (o : LedgerOp) : Proc unit :=
  match o with
  | CreateExpense id paidBy c amount ps => SplitService.createExpense id paidBy c amount ps
  | EditExpense id paidBy c amount ps => SplitService.editExpense id paidBy c amount ps
  | DeleteExpense actor expenseId => deleteExpense actor expenseId
  | Settle id payer receiver c amount => SplitService.settle id payer receiver c amount
  | DeleteFriend actor friendId => deleteFriend actor friendId
  end.

(** The store after a sequence of requests; a request that throws leaves
    the store it had reached. *)
Definition run_ops (ops : list LedgerOp) (d : Db) : Db :=
  foldl (fun d o => fst (run_op o d)) d ops.

(** ** The import page

    [handleFileChange] works on whatever [JSON.parse] returns; the casts to
    [SplitwiseUser] and [SplitwiseGroup] check nothing at run time, so the
    model keeps JavaScript's values and the errors their use throws. *)

Module ImportPage.

(** A value [JSON.parse] can return or a property read can give.
    Numbers are the integers (ids and lengths). *)
#[warnings="-register-all"]
Inductive Value :=
| VUndefined
| VNull
| VBool (b : bool)
| VNumber (n : Z)
| VString (s : string)
| VArray (elements : list Value)
| VObject (fields : list (string * Value)).

Inductive JSError := SyntaxError | TypeError.

Fixpoint lookup_field (key : string) (fields : list (string * Value))
    : option Value :=
  match fields with
  | [] => None
  | (k, v) :: rest => if String.eqb k key then Some v else lookup_field key rest
  end.

(** [v.key] for a data key or [length]: reading a property of [null] or
    [undefined] throws; a missing property reads as [undefined]. *)
Definition get_property (v : Value) (key : string) : JSError + Value :=
  match v with
  | VUndefined | VNull => inl TypeError
  | VBool _ | VNumber _ => inr VUndefined
  | VString str =>
      if String.eqb key "length" then inr (VNumber (Z.of_nat (String.length str)))
      else inr VUndefined
  | VArray elements =>
      if String.eqb key "length" then inr (VNumber (Z.of_nat (length elements)))
      else inr VUndefined
  | VObject fields => inr (default VUndefined (lookup_field key fields))
  end.

(** The values [for (const x of v)] goes through: the elements of an
    array, the characters of a string; anything else is not iterable. *)
Definition iterate (v : Value) : JSError + list Value :=
  match v with
  | VArray elements => inr elements
  | VString str =>
      inr ((fun ch => VString (String ch EmptyString)) <$> list_ascii_of_string str)
  | _ => inl TypeError
  end.

(** ToBoolean *)
Definition truthy (v : Value) : bool :=
  match v with
  | VUndefined | VNull => false
  | VBool b => b
  | VNumber n => negb (n =? 0)%Z
  | VString str => negb (String.eqb str "")
  | VArray _ | VObject _ => true
  end.

(** ['s' === v] *)
Definition strict_eq_string (str : string) (v : Value) : bool :=
  match v with
  | VString str' => String.eqb str str'
  | _ => false
  end.

(** [0 !== v] *)
Definition strict_ne_zero (v : Value) : bool :=
  match v with
  | VNumber n => negb (n =? 0)%Z
  | _ => true
  end.

Section Handler.
(** [JSON.parse]: the value a text denotes, or a SyntaxError. *)
Variable JSON_parse : string -> JSError + Value.

(** [0 < v] for a [v] that is a string, an array or an object, where
    JavaScript compares after converting [v] to a number. *)
Variable positive_after_conversion : Value -> bool.

(** [0 < v] *)
Definition zero_lt (v : Value) : bool :=
  match v with
  | VUndefined | VNull => false
  | VBool b => b
  | VNumber n => (0 <? n)%Z
  | VString _ | VArray _ | VObject _ => positive_after_conversion v
  end.

(** The test of the friends loop:
    [balance.length && 'confirmed' === friend.registration_status]. *)
Definition keep_friend (friend : Value) : JSError + bool :=
  let* balance := get_property friend "balance" in
  let* len := get_property balance "length" in
  if truthy len then
    let* registration_status := get_property friend "registration_status" in
    inr (strict_eq_string "confirmed" registration_status)
  else inr false.

(** The friends loop, pushing onto [friendsWithOutStandingBalance]. *)
Fixpoint friends_loop (items : list Value)
    (friendsWithOutStandingBalance : list Value) : JSError + list Value :=
  match items with
  | [] => inr friendsWithOutStandingBalance
  | friend :: rest =>
      let* keep := keep_friend friend in
      friends_loop rest
        (if keep then friendsWithOutStandingBalance ++ [friend]
         else friendsWithOutStandingBalance)
  end.

(** The callback of the groups filter:
    [0 < g.members.length && 0 !== g.id]. *)
Definition keep_group (g : Value) : JSError + bool :=
  let* members := get_property g "members" in
  let* len := get_property members "length" in
  if zero_lt len then
    let* id := get_property g "id" in
    inr (strict_ne_zero id)
  else inr false.

(** [v.filter(callback)]: only an array has the method. *)
Fixpoint filter_elements (callback : Value -> JSError + bool)
    (elements : list Value) : JSError + list Value :=
  match elements with
  | [] => inr []
  | x :: rest =>
      let* keep := callback x in
      let* kept := filter_elements callback rest in
      inr (if keep then x :: kept else kept)
  end.

Definition array_filter (callback : Value -> JSError + bool) (v : Value)
    : JSError + list Value :=
  match v with
  | VArray elements => filter_elements callback elements
  | _ => inl TypeError
  end.

(** The keys [reduce] sets to [true]: the [id] of every element. *)
Fixpoint ids_of (elements : list Value) : JSError + list Value :=
  match elements with
  | [] => inr []
  | x :: rest =>
      let* id := get_property x "id" in
      let* ids := ids_of rest in
      inr (id :: ids)
  end.

Record File := mkFile { file_name : string; file_text : string }.

(** The state of the page; a selection map is kept as the ids it maps
    to [true]. *)
Record PageState := mkPage {
  usersWithBalance : list Value;
  groups : list Value;
  selectedUsers : list Value;
  selectedGroups : list Value;
  uploadedFile : option File;
  toasts : list string
}.

Definition setUploadedFile (f : File) (st : PageState) : PageState :=
  mkPage (usersWithBalance st) (groups st) (selectedUsers st)
         (selectedGroups st) (Some f) (toasts st).

Definition setUsersWithBalance (us : list Value) (st : PageState) : PageState :=
  mkPage us (groups st) (selectedUsers st) (selectedGroups st)
         (uploadedFile st) (toasts st).

Definition setSelectedUsers (ids : list Value) (st : PageState) : PageState :=
  mkPage (usersWithBalance st) (groups st) ids (selectedGroups st)
         (uploadedFile st) (toasts st).

Definition setGroups (gs : list Value) (st : PageState) : PageState :=
  mkPage (usersWithBalance st) gs (selectedUsers st) (selectedGroups st)
         (uploadedFile st) (toasts st).

Definition setSelectedGroups (ids : list Value) (st : PageState) : PageState :=
  mkPage (usersWithBalance st) (groups st) (selectedUsers st) ids
         (uploadedFile st) (toasts st).

Definition toast_error (msg : string) (st : PageState) : PageState :=
  mkPage (usersWithBalance st) (groups st) (selectedUsers st)
         (selectedGroups st) (uploadedFile st) (toasts st ++ [msg]).

(** The body of the [try]. *)
Definition try_block (file : File) : StateErr PageState JSError unit :=
  json <- lift (JSON_parse (file_text file)) ;;
  friends <- lift (get_property json "friends") ;;
  items <- lift (iterate friends) ;;
  friendsWithOutStandingBalance <- lift (friends_loop items []) ;;
  modify (setUsersWithBalance friendsWithOutStandingBalance) ;;
  userIds <- lift (ids_of friendsWithOutStandingBalance) ;;
  modify (setSelectedUsers userIds) ;;
  groups <- lift (get_property json "groups") ;;
  _groups <- lift (array_filter keep_group groups) ;;
  modify (setGroups _groups) ;;
  groupIds <- lift (ids_of _groups) ;;
  modify (setSelectedGroups groupIds).

(** [handleFileChange], on the files of the input element. *)
Definition handleFileChange (files : list File) (st : PageState) : PageState :=
  match head files with
  | None => st
  | Some file =>
      match try_block file (setUploadedFile file st) with
      | (st', inr _) => st'
      | (st', inl e) => toast_error "Error importing file" st'
      end
  end.
End Handler.


(** What the specification asks of a retained friend: registration
    confirmed and a balance list with an entry. *)
Definition confirmed_with_balance (friend : Value) : Prop :=
  match get_property friend "registration_status",
        get_property friend "balance" with
  | inr (VString status), inr (VArray (_ :: _)) => status = "confirmed"
  | _, _ => False
  end.

#[global] Instance confirmed_with_balance_dec friend :
  Decision (confirmed_with_balance friend).
Proof. unfold confirmed_with_balance. repeat case_match; apply _. Defined.

(** What the specification asks of a retained group: a member, and an id
    that is not the "no group" id 0. *)
Definition with_members_and_id (g : Value) : Prop :=
  match get_property g "members", get_property g "id" with
  | inr (VArray (_ :: _)), inr (VNumber id) => id <> 0
  | inr (VArray (_ :: _)), inr _ => True
  | _, _ => False
  end.

#[global] Instance with_members_and_id_dec g : Decision (with_members_and_id g).
Proof. unfold with_members_and_id. repeat case_match; apply _. Defined.



(** An export with one confirmed friend who owes 5 USD and one group. *)
Definition friend_example : Value :=
  VObject [("id", VNumber 7); ("first_name", VString "Bob");
           ("email", VString "bob@example.org");
           ("registration_status", VString "confirmed");
           ("balance", VArray [VObject [("currency_code", VString "USD");
                                        ("amount", VString "5.0")]])].

Definition group_example : Value :=
  VObject [("id", VNumber 31); ("name", VString "Flat");
           ("members", VArray [friend_example])].

Definition export_example : Value :=
  VObject [("friends", VArray [friend_example;
                               VObject [("id", VNumber 8);
                                        ("registration_status", VString "invited");
                                        ("balance", VArray [])]]);
           ("groups", VArray [group_example;
                              VObject [("id", VNumber 0);
                                       ("name", VString "Non-group expenses");
                                       ("members", VArray [friend_example])]])].


Definition empty_page : PageState := mkPage [] [] [] [] None [].

End ImportPage.

(** ** Predicates on the balance table *)

(** The mirrored-pair invariant of the data model. *)
Definition mirrored (t : list Balance.t) : Prop :=
  forall a b c x,
    Balance.mk a b c x ∈ t -> Balance.mk b a c (- x) ∈ t.

(** A row of the pair (u, f), in either direction. *)
Definition between (u f : Z) (b : Balance.t) : Prop :=
  (Balance.userId b = u /\ Balance.friendId b = f)
  \/ (Balance.userId b = f /\ Balance.friendId b = u).

#[global] Instance between_dec u f b : Decision (between u f b).
Proof. unfold between. apply _. Defined.

(** Some currency balance of the pair is non-zero. *)
Definition outstanding (u f : Z) (t : list Balance.t) : Prop :=
  exists b, b ∈ t /\ between u f b /\ Balance.amount b <> 0.

(** The acting user's own rows towards [f] carry a non-zero amount. *)
Definition owed_row (u f : Z) (t : list Balance.t) : Prop :=
  exists b, b ∈ t /\ Balance.userId b = u /\ Balance.friendId b = f
            /\ Balance.amount b <> 0.

#[global] Instance owed_row_dec u f t : Decision (owed_row u f t).
Proof.
  refine (cast_if (decide (Exists (fun b => Balance.userId b = u /\ Balance.friendId b = f
                                            /\ Balance.amount b <> 0) t)));
    unfold owed_row; rewrite Exists_exists in *; naive_solver.
Defined.

Definition currency_le (a b : Balance.t) : Prop :=
  String.leb (Balance.currency a) (Balance.currency b) = true.

Definition sorted_by_currency (l : list Balance.t) : Prop :=
  StronglySorted currency_le l.

(** The balance the table records for a key: the amount of its row, 0 when
    it has none. *)
Definition balance_of (t : list Balance.t) (key : Z * Z * string) : Z :=
  from_option Balance.amount 0 (head (filter (fun b => Balance.key b = key) t)).

(** What an expense in currency [c], paid by [paidBy] and shared as
    [participants], adds to the balance of a key. *)
Definition contribution (c : string) (participants : list (Z * Z)) (paidBy : Z)
    (key : Z * Z * string) : Z :=
  foldr (fun p acc =>
           acc + (if decide (fst p = paidBy) then 0
                  else (if decide (key = (paidBy, fst p, c)) then snd p else 0)
                       + (if decide (key = (fst p, paidBy, c)) then - snd p else 0)))
        0 participants.

(** A user takes part in an expense when the participant table has the
    row of the pair. *)
Definition participant (u : Z) (expenseId : string) (d : Db) : Prop :=
  exists p, p ∈ expenseParticipant d
            /\ ExpenseParticipant.expenseId p = expenseId
            /\ ExpenseParticipant.userId p = u.

#[global] Instance participant_dec u e d : Decision (participant u e d).
Proof.
  refine (cast_if (decide (Exists (fun p => ExpenseParticipant.expenseId p = e
                                            /\ ExpenseParticipant.userId p = u)
                                  (expenseParticipant d))));
    unfold participant; rewrite Exists_exists in *; naive_solver.
Defined.

(** The expense row an id names. *)
Definition expense_by_id (expenseId : string) (d : Db) : option Expense.t :=
  head (filter (fun e => Expense.id e = expenseId) (expense d)).

(** The characters of an address before its first '@' (all of it when it
    has none). *)
Fixpoint before_at (s : string) : string :=
  match s with
  | EmptyString => EmptyString
  | String ch rest => if Ascii.eqb ch "@" then EmptyString
                      else String ch (before_at rest)
  end.

(** A store to run the examples on: users 1 and 2 are square in USD, user 3
    owes user 1 four EUR. *)
Definition ledger_example : Db :=
  set_balance (fun _ => [Balance.mk 1 2 "USD" 0; Balance.mk 2 1 "USD" 0;
                         Balance.mk 1 3 "EUR" 4; Balance.mk 3 1 "EUR" (-4)]) emptyDb.

(** ** [shuffleArray] *)

Section ShuffleArray.
Context {V : Type}.

(** JavaScript's [undefined], the value of a read outside the array. *)
Variable undefined : V.

(** [array[i]] as an expression. *)
Definition array_get (array : list V) (i : Z) : V :=
  if decide (0 <= i) then default undefined (array !! Z.to_nat i)
  else undefined.

(** [array[i] = v]: a write past the end grows the array, leaving holes
    between the old end and [i]; a negative [i] names no element. *)
Definition array_set (array : list V) (i : Z) (v : V) : list V :=
  if decide (0 <= i) then
    if decide (Z.to_nat i < length array)%nat then <[Z.to_nat i := v]> array
    else array ++ replicate (Z.to_nat i - length array) undefined ++ [v]
  else array.

(** One turn of the loop, with the accesses it makes: each index paired
    with the length of the array at that moment.  [randomIndex] is the
    value of [Math.floor(Math.random() * currentIndex)], the random index
    drawn in this turn: the product is one of doubles, and the model takes
    the integer it is rounded down to as given. *)
Definition shuffle_body (randomIndex : Z) (array : list V) (currentIndex : Z)
    : list V * Z * list (Z * nat) :=
  let currentIndex := currentIndex - 1 in
  let right0 := array_get array randomIndex in
  let right1 := array_get array currentIndex in
  let array1 := array_set array currentIndex right0 in
  let array2 := array_set array1 randomIndex right1 in
  (array2, currentIndex,
   [(randomIndex, length array); (currentIndex, length array);
    (currentIndex, length array); (randomIndex, length array1)]).

(** [while (0 != currentIndex) { ... }], with [fuel] turns at most;
    [random calls currentIndex] is the index
    [Math.floor(Math.random() * currentIndex)] that the turn with the given
    number of earlier calls of [Math.random()] draws. *)
Fixpoint shuffle_loop (fuel : nat) (random : nat -> Z -> Z) (calls : nat)
    (array : list V) (currentIndex : Z) (log : list (Z * nat))
    : option (list V * list (Z * nat)) :=
  if decide (0 = currentIndex) then Some (array, log)
  else match fuel with
       | O => None
       | S fuel =>
           let '(array', currentIndex', accesses) :=
             shuffle_body (random calls currentIndex) array currentIndex in
           shuffle_loop fuel random (S calls) array' currentIndex'
                        (log ++ accesses)
       end.

Definition shuffleArray (fuel : nat) (random : nat -> Z -> Z) (array : list V)
    : option (list V * list (Z * nat)) :=
  shuffle_loop fuel random 0 array (Z.of_nat (length array)) [].
End ShuffleArray.

(** An access is in bounds when its index is one of the array's. *)
Definition in_bounds (access : Z * nat) : Prop :=
  0 <= fst access < Z.of_nat (snd access).

(** Every random index drawn is an index below [currentIndex]. *)
Definition draws_in_range (random : nat -> Z -> Z) : Prop :=
  forall calls currentIndex,
    0 < currentIndex -> 0 <= random calls currentIndex < currentIndex.

(** ** The import as table transformations

    Find-or-create on one table, and what an import makes of each table;
    the import service is shown to compute these. *)

Section Ensure.
Context {R I : Type} (matches : I -> R -> Prop)
        `{!forall i r, Decision (matches i r)} (create : I -> list R -> R).

(** The row a unique lookup finds. *)
Definition lookup_first (i : I) (t : list R) : option R :=
  head (filter (matches i) t).

(** The table after find-or-create. *)
Definition ensure (i : I) (t : list R) : list R :=
  match lookup_first i t with
  | Some _ => t
  | None => t ++ [create i t]
  end.

Definition ensure_all (l : list I) (t : list R) : list R :=
  foldl (fun t i => ensure i t) t l.
End Ensure.

Definition user_matches (i : string * string) (u : User.t) : Prop :=
  User.email u = Some (fst i).

#[global] Instance user_matches_dec i u : Decision (user_matches i u).
Proof. unfold user_matches. apply _. Defined.

Definition user_row (i : string * string) (us : list User.t) : User.t :=
  User.mk (next_user_id us) (Some (snd i)) (Some (fst i)).

Definition user_key (f : SplitwiseUser.t) : string * string :=
  (SplitwiseUser.email f, SplitwiseUser.first_name f).

Definition user_id_of (f : SplitwiseUser.t) (us : list User.t) : Z :=
  from_option User.id 0 (lookup_first user_matches (user_key f) us).

Definition group_matches (i : Z * string) (g : Group.t) : Prop :=
  Group.splitwiseGroupId g = Some (fst i).

#[global] Instance group_matches_dec i g : Decision (group_matches i g).
Proof. unfold group_matches. apply _. Defined.

Definition group_row (i : Z * string) (gs : list Group.t) : Group.t :=
  Group.mk (SplitwiseImport.next_group_id gs) (snd i) (Some (fst i)).

Definition group_key (g : SplitwiseGroup.t) : Z * string :=
  (SplitwiseGroup.id g, SplitwiseGroup.name g).

Definition group_id_of (g : SplitwiseGroup.t) (gs : list Group.t) : Z :=
  from_option Group.id 0 (lookup_first group_matches (group_key g) gs).

Definition member_matches (i m : GroupUser.t) : Prop :=
  GroupUser.groupId m = GroupUser.groupId i
  /\ GroupUser.userId m = GroupUser.userId i.

#[global] Instance member_matches_dec i m : Decision (member_matches i m).
Proof. unfold member_matches. apply _. Defined.

Definition member_row (i : GroupUser.t) (ms : list GroupUser.t) : GroupUser.t := i.

(** The balance writes of an import, with the friends' ids read from the
    user table [us]. *)
Definition import_writes (toAmount : string -> Z) (currentUserId : Z)
    (us : list User.t) (friends : list SplitwiseUser.t)
    : list (Z * Z * string * Z) :=
  flat_map (fun f =>
    flat_map (SplitwiseImport.balance_writes toAmount currentUserId (user_id_of f us))
             (SplitwiseUser.balance f)) friends.

(** The membership rows of an import, with the ids read from the group
    table [gs] and the user table [us]. *)
Definition import_members (gs : list Group.t) (us : list User.t)
    (groups : list SplitwiseGroup.t) : list GroupUser.t :=
  flat_map (fun g =>
    (fun m => GroupUser.mk (group_id_of g gs) (user_id_of m us))
      <$> SplitwiseGroup.members g) groups.

(** The amount the last write to a key leaves, if the key is written. *)
Definition last_write (ws : list (Z * Z * string * Z)) (key : Z * Z * string)
    : option Z :=
  foldl (fun acc w => if decide (fst w = key) then Some (snd w) else acc) None ws.

(** A row after the writes [ws], when its key was in the table before. *)
Definition overwrite (ws : list (Z * Z * string * Z)) (b : Balance.t) : Balance.t :=
  match last_write ws (Balance.key b) with
  | Some v => Balance.mk (Balance.userId b) (Balance.friendId b) (Balance.currency b) v
  | None => b
  end.

(** The table has a row of the key. *)
Definition has_key (key : Z * Z * string) (t : list Balance.t) : Prop :=
  Exists (fun b => Balance.key b = key) t.

(** The store with its user, balance, group and membership tables
    replaced. *)
Definition with_tables (d : Db) (us : list User.t) (bs : list Balance.t)
    (gs : list Group.t) (ms : list GroupUser.t) : Db :=
  mkDb us bs (expense d) (expenseParticipant d) gs ms (outbox d).

(** The user table, the group table and the membership table after an
    import of [friends] and [groups]. *)
Definition users_after (friends : list SplitwiseUser.t)
    (groups : list SplitwiseGroup.t) (us : list User.t) : list User.t :=
  ensure_all user_matches user_row
    (user_key <$> flat_map SplitwiseGroup.members groups)
    (ensure_all user_matches user_row (user_key <$> friends) us).

Definition groups_after (groups : list SplitwiseGroup.t) (gs : list Group.t)
    : list Group.t :=
  ensure_all group_matches group_row (group_key <$> groups) gs.

(** An import to run the examples on: Bob is listed twice with different
    USD amounts, and shares a group with Ann. *)
Definition import_friends_example : list SplitwiseUser.t :=
  [SplitwiseUser.mk 7 "bob@example.org" "Bob" [SplitwiseBalance.mk "USD" "12345"];
   SplitwiseUser.mk 7 "bob@example.org" "Bob"
     [SplitwiseBalance.mk "USD" "123"; SplitwiseBalance.mk "EUR" "1"]].

Definition import_groups_example : list SplitwiseGroup.t :=
  [SplitwiseGroup.mk 31 "Flat"
     [SplitwiseUser.mk 7 "bob@example.org" "Bob" [];
      SplitwiseUser.mk 9 "ann@example.org" "Ann" []]].

Definition import_store_example : Db :=
  set_user (fun _ => [User.mk 1 (Some "Me") (Some "me@example.org")]) emptyDb.

(** A stand-in for the reading of amounts in the examples. *)
Definition amount_example (s : string) : Z := Z.of_nat (String.length s).

(** ** More of the user router *)

Section UserRouterQueries.
(** [ctx.session.user.id] *)
Variable session_user_id : Z.

(** [getFriends]: the distinct [friendId]s of the acting user's balance
    rows, then the users with one of these ids. *)
Definition getFriends : Proc (list User.t) :=
  balanceWithFriends <- gets (fun d =>
    remove_dups (Balance.friendId
                   <$> filter (fun b => Balance.userId b = session_user_id)
                              (balance d))) ;;
  friends <- findMany user (fun u => User.id u ∈ balanceWithFriends) ;;
  ret friends.

(** [getFriend]: the user of the given id, provided one of that user's own
    balance rows ([userBalances], the rows whose [userId] is the user) has
    the acting user as its friend. *)
Definition getFriend (input_friendId : Z) : Proc (option User.t) :=
  fun d =>
    findUnique user
      (fun u => User.id u = input_friendId
                /\ Exists (fun b => Balance.userId b = User.id u
                                    /\ Balance.friendId b = session_user_id)
                          (balance d)) d.

End UserRouterQueries.

(** ** Answers in an order the store chooses

    None of the router's [findMany] calls has an [orderBy], and the store
    fixes no order on an answer without one.  The procedures above read a
    table in storage order, which is one of the orders the store may
    answer in.  Below the order of every answer of more than one row is a
    parameter of the procedure: [order rows] is the answer the store gives
    when [rows] are the matching rows in storage order, and [rearranges
    order] says that it is an arrangement of them. *)

Definition rearranges {R} (order : list R -> list R) : Prop :=
  forall rows, order rows ≡ₚ rows.

Module AnyOrder.

(** Prisma's [findMany] without [orderBy]. *)
Definition findMany {R} (order : list R -> list R) (tbl : Db -> list R)
    (P : R -> Prop) `{!forall r, Decision (P r)} : Proc (list R) :=
  gets (fun d => order (filter P (tbl d))).

Section UserRouter.
(** [ctx.session.user.id] *)
Variable session_user_id : Z.

(** [getBalancesWithFriend] *)
Definition getBalancesWithFriend (order : list Balance.t -> list Balance.t)
    (input_friendId : Z) : Proc (list Balance.t) :=
  balances <- findMany order balance
    (fun b => Balance.userId b = session_user_id
              /\ Balance.friendId b = input_friendId
              /\ Balance.amount b <> 0) ;;
  ret balances.

(** [getFriends]: the distinct [friendId]s of the acting user's balance
    rows, then the users with one of these ids. *)
Definition getFriends (order_ids : list Z -> list Z)
    (order_users : list User.t -> list User.t) : Proc (list User.t) :=
  balanceWithFriends <- gets (fun d =>
    order_ids
      (remove_dups (Balance.friendId
                      <$> filter (fun b => Balance.userId b = session_user_id)
                                 (balance d)))) ;;
  friends <- findMany order_users user
    (fun u => User.id u ∈ balanceWithFriends) ;;
  ret friends.

(** The [groupId] column of an expense row, which the [Expense] record
    above does not carry. *)
Variable groupId_of : Expense.t -> option Z.

(** [getExpenseDetails]: the expense with its participant records; when
    the expense has a group (a [groupId] that is not 0, which is falsy),
    the members of the group that are no participants are pushed onto the
    participants with amount [0n], in the order the store lists them. *)
Definition getExpenseDetails
    (order_participants : list ExpenseParticipant.t -> list ExpenseParticipant.t)
    (order_groupUsers : list GroupUser.t -> list GroupUser.t)
    (input_expenseId : string)
    : Proc (option (Expense.t * list ExpenseParticipant.t)) :=
  expense <- findUnique expense (fun e => Expense.id e = input_expenseId) ;;
  match expense with
  | None => ret None
  | Some e =>
      expenseParticipants <- findMany order_participants expenseParticipant
        (fun p => ExpenseParticipant.expenseId p = Expense.id e) ;;
      match groupId_of e with
      | None => ret (Some (e, expenseParticipants))
      | Some groupId =>
          if decide (groupId = 0) then ret (Some (e, expenseParticipants))
          else
            missingGroupMembers <- findUnique group
              (fun g => Group.id g = groupId) ;;
            match missingGroupMembers with
            | None => ret (Some (e, expenseParticipants))
            | Some _ =>
                groupUsers <- findMany order_groupUsers groupUser
                  (fun gu => GroupUser.groupId gu = groupId
                             /\ GroupUser.userId gu
                                ∉ (ExpenseParticipant.userId <$> expenseParticipants)) ;;
                ret (Some (e, expenseParticipants
                              ++ ((fun gu => ExpenseParticipant.mk (Expense.id e)
                                               (GroupUser.userId gu) 0)
                                  <$> groupUsers)))
            end
      end
  end.
End UserRouter.
End AnyOrder.

(** ** The friend page ([src/pages/balances/[friendId].tsx]) *)

Module FriendPage.

(** The [data] of a query that was sent: the rows once it has answered,
    [undefined] while it is pending or after it failed. *)
Definition query_data {A} (answer : Db * (TRPCError + A)) : option A :=
  match snd answer with
  | inr rows => Some rows
  | inl _ => None
  end.

(** [!!_friendId] for the number [parseInt] returned; [None] is NaN. *)
Definition enabled (_friendId : option Z) : bool :=
  match _friendId with
  | Some n => negb (n =? 0)%Z
  | None => false
  end.

(** [balances.data] of
    [api.user.getBalancesWithFriend.useQuery({ friendId: _friendId },
    { enabled: !!_friendId })]: the query is sent only when it is enabled,
    and [data] stays [undefined] when it is not. *)
Definition balances_data (_friendId : option Z)
    (getBalancesWithFriend : Z -> Db * (TRPCError + list Balance.t))
    : option (list Balance.t) :=
  match _friendId with
  | Some friendId =>
      if enabled _friendId then query_data (getBalancesWithFriend friendId)
      else None
  | None => None
  end.

(** [balances.data?.filter((b) => 0 < b.amount)] *)
Definition youLent (data : option (list Balance.t)) : option (list Balance.t) :=
  filter (fun b => 0 < Balance.amount b) <$> data.

(** [balances.data?.filter((b) => 0 > b.amount)] *)
Definition youOwe (data : option (list Balance.t)) : option (list Balance.t) :=
  filter (fun b => 0 > Balance.amount b) <$> data.

(** The [disabled] of the delete button:
    [!(0 === youLent?.length && 0 === youOwe?.length)]. *)
Definition deleteFriend_disabled (data : option (list Balance.t)) : bool :=
  negb (bool_decide (length <$> youLent data = Some 0%nat)
        && bool_decide (length <$> youOwe data = Some 0%nat)).

End FriendPage.

(** A store with an expense of a group: two of the three members of group
    7 take part in the expense. *)
Definition expense_example : Db :=
  set_groupUser (fun _ => [GroupUser.mk 7 1; GroupUser.mk 7 2; GroupUser.mk 7 3])
    (set_group (fun _ => [Group.mk 7 "Flat" None])
       (set_expenseParticipant
          (fun _ => [ExpenseParticipant.mk "e1" 1 20;
                     ExpenseParticipant.mk "e1" 2 (-20)])
          (set_expense (fun _ => [Expense.mk "e1" 1 "USD" 30 None]) emptyDb))).

(** What [getExpenseDetails] answers for an expense [e]: the stored
    participant rows of [e] in some order, followed by records with amount
    0 for users without a stored row, among them every member of the group
    of [e]. *)
Definition padded (groupId_of : Expense.t -> option Z) (d : Db) (e : Expense.t)
    (participants : list ExpenseParticipant.t) : Prop :=
  exists stored added,
    participants = stored ++ added
    /\ stored ≡ₚ filter (fun p => ExpenseParticipant.expenseId p = Expense.id e)
                        (expenseParticipant d)
    /\ Forall (fun p =>
                 ExpenseParticipant.amount p = 0
                 /\ ExpenseParticipant.expenseId p = Expense.id e
                 /\ forall p', p' ∈ expenseParticipant d ->
                      ExpenseParticipant.expenseId p' = Expense.id e ->
                      ExpenseParticipant.userId p'
                      <> ExpenseParticipant.userId p)
              added
    /\ foldr Z.add 0 (ExpenseParticipant.amount <$> participants)
       = foldr Z.add 0 (ExpenseParticipant.amount <$> stored)
    /\ forall g gu,
         groupId_of e = Some g -> g <> 0 ->
         (exists row, row ∈ group d /\ Group.id row = g) ->
         gu ∈ groupUser d -> GroupUser.groupId gu = g ->
         GroupUser.userId gu ∈ (ExpenseParticipant.userId <$> participants).


(** The random indices of a shuffle given as a list: the [k]-th turn draws
    the [k]-th entry when that is an index below [currentIndex], and 0
    otherwise. *)
Definition random_of (draws : list Z) (k : nat) (currentIndex : Z) : Z :=
  let randomIndex := default 0 (draws !! k) in
  if decide (0 <= randomIndex < currentIndex) then randomIndex else 0.

(** The store of [ledger_example] with its three users. *)
Definition friends_example : Db :=
  set_user (fun _ => [User.mk 1 (Some "Ann") (Some "ann@example.org");
                      User.mk 2 (Some "Bob") (Some "bob@example.org");
                      User.mk 3 (Some "Cid") (Some "cid@example.org")])
           ledger_example.

(** Case analysis on the row a [findUnique] found. *)
Tactic Notation "case_head" "as" ident(x) :=
  match goal with
  | |- context [head ?l] => destruct (head l) as [x|] eqn:?
  end.

(** * Properties *)

Example getBalancesWithFriend_ex :
  getBalancesWithFriend 1 2
    (set_balance (fun _ => [Balance.mk 1 2 "USD" 5; Balance.mk 1 2 "EUR" 0;
                            Balance.mk 2 1 "USD" (-5); Balance.mk 1 3 "USD" 7]) emptyDb)
  = (set_balance (fun _ => [Balance.mk 1 2 "USD" 5; Balance.mk 1 2 "EUR" 0;
                            Balance.mk 2 1 "USD" (-5); Balance.mk 1 3 "USD" 7]) emptyDb,
     inr [Balance.mk 1 2 "USD" 5]).
Proof. reflexivity. Qed.

(** ** The query layer *)

Lemma getBalancesWithFriend_eq (u f : Z) (d : Db) :
  getBalancesWithFriend u f d =
  (d, inr (filter (fun b => Balance.userId b = u /\ Balance.friendId b = f
                            /\ Balance.amount b <> 0) (balance d))).
Proof. reflexivity. Qed.

(** C6: [getBalancesWithFriend] returns exactly the rows of the acting user
    towards the friend whose amount is not 0, in table order and each as
    often as the table holds it; no row with amount 0 is among them; and the
    store is left as it was. *)
Theorem getBalancesWithFriend_nonzero_rows (u f : Z) (d : Db) :
  exists rows,
    getBalancesWithFriend u f d = (d, inr rows)
    /\ rows = filter (fun b => Balance.userId b = u /\ Balance.friendId b = f
                               /\ Balance.amount b <> 0) (balance d)
    /\ (forall b, b ∈ rows <->
                  b ∈ balance d /\ Balance.userId b = u
                  /\ Balance.friendId b = f /\ Balance.amount b <> 0)
    /\ Forall (fun b => Balance.amount b <> 0) rows
    /\ rows `sublist_of` balance d.
Proof.
  eexists. split; [apply getBalancesWithFriend_eq|].
  split; [reflexivity|]. split; [|split].
  - intros b. rewrite list_elem_of_filter. tauto.
  - apply Forall_forall. intros b Hb.
    apply list_elem_of_filter in Hb. tauto.
  - apply sublist_filter.
Qed.

(** Storage order is one of the orders the store may answer in. *)
Lemma rearranges_id {R} : rearranges (@id (list R)).
Proof. intros rows. reflexivity. Qed.

Lemma rearranges_reverse {R} : rearranges (@reverse R).
Proof. intros rows. apply reverse_Permutation. Qed.

Lemma getBalancesWithFriend_storage_order (u f : Z) (d : Db) :
  AnyOrder.getBalancesWithFriend u id f d = getBalancesWithFriend u f d.
Proof. reflexivity. Qed.

(** C7, as the code has it: the query asks the store for no order.  In
    whatever order the store answers, the list is an arrangement of the
    acting user's rows towards the friend whose amount is not 0, and the
    store is left as it was; and every arrangement of these rows is the
    answer for some order the store may answer in, so that nothing about
    the order of the list follows from the code. *)
Theorem getBalancesWithFriend_any_order
    (order : list Balance.t -> list Balance.t) (u f : Z) (d : Db) :
  rearranges order ->
  exists rows,
    AnyOrder.getBalancesWithFriend u order f d = (d, inr rows)
    /\ rows ≡ₚ filter (fun b => Balance.userId b = u /\ Balance.friendId b = f
                                /\ Balance.amount b <> 0) (balance d)
    /\ forall arrangement,
         arrangement ≡ₚ rows ->
         exists order',
           rearranges order'
           /\ AnyOrder.getBalancesWithFriend u order' f d
              = (d, inr arrangement).
Proof.
  intros Horder. eexists. split; [reflexivity|]. split; [apply Horder|].
  intros arrangement Harr.
  set (matching := filter (fun b => Balance.userId b = u /\ Balance.friendId b = f
                                    /\ Balance.amount b <> 0) (balance d)) in *.
  exists (fun rows => if decide (rows = matching) then arrangement else rows).
  split.
  - intros rows. case_decide as Hrows; [|reflexivity].
    subst rows. rewrite Harr. apply Horder.
  - unfold AnyOrder.getBalancesWithFriend, AnyOrder.findMany, bind, gets, ret.
    fold matching. now rewrite decide_True.
Qed.

Lemma getBalancesWithFriend_any_order_witness :
  exists rows,
    AnyOrder.getBalancesWithFriend 1 reverse 3 ledger_example
    = (ledger_example, inr rows)
    /\ rows ≡ₚ [Balance.mk 1 3 "EUR" 4].
Proof.
  destruct (getBalancesWithFriend_any_order reverse 1 3 ledger_example
              rearranges_reverse) as (rows & Hrun & Hrows & _).
  exists rows. split; [exact Hrun|exact Hrows].
Defined.

(** C7, as stated, fails: of two rows in USD and EUR, the store may answer
    EUR, USD to one query and USD, EUR to the next over the same state; the
    second answer is not sorted by currency code, and the two differ. *)
Lemma getBalancesWithFriend_not_sorted :
  exists (d : Db) (order order' : list Balance.t -> list Balance.t)
         (rows rows' : list Balance.t),
    rearranges order /\ rearranges order'
    /\ AnyOrder.getBalancesWithFriend 1 order 2 d = (d, inr rows)
    /\ AnyOrder.getBalancesWithFriend 1 order' 2 d = (d, inr rows')
    /\ sorted_by_currency rows
    /\ ~ sorted_by_currency rows'
    /\ rows <> rows'.
Proof.
  exists (set_balance (fun _ => [Balance.mk 1 2 "USD" 5; Balance.mk 2 1 "USD" (-5);
                                 Balance.mk 1 2 "EUR" 3; Balance.mk 2 1 "EUR" (-3)])
                      emptyDb).
  exists reverse, id. eexists _, _.
  split; [apply rearranges_reverse|]. split; [apply rearranges_id|].
  split; [reflexivity|]. split; [reflexivity|]. split; [|split].
  - repeat constructor.
  - intros H. inversion H as [|? ? _ Hall]; subst.
    inversion Hall as [|? ? Hle _]; subst.
    unfold currency_le in Hle. simpl in Hle. discriminate.
  - discriminate.
Qed.

(** ** Friend removal *)

Lemma deleteFriend_fail (u f : Z) (d : Db) :
  owed_row u f (balance d) ->
  deleteFriend u f d
  = (d, inl (mkError BAD_REQUEST "You have outstanding balances with this friend")).
Proof.
  intros (b & Hb & Hu & Hf & Ha). unfold deleteFriend, bind, findMany, gets.
  destruct (filter _ (balance d)) as [|r l] eqn:E; [|reflexivity].
  exfalso. eapply filter_nil_not_elem_of; [exact E| |exact Hb]. cbv beta. tauto.
Qed.

Lemma deleteFriend_ok (u f : Z) (d : Db) :
  ~ owed_row u f (balance d) ->
  deleteFriend u f d
  = (set_balance (filter (fun b => ~ between u f b)) d, inr tt).
Proof.
  intros Hn. unfold deleteFriend, bind, findMany, gets.
  destruct (filter _ (balance d)) as [|r l] eqn:E.
  - simpl. unfold balance_deleteMany, modify, set_balance. simpl.
    do 2 f_equal. rewrite list_filter_filter.
    apply list_filter_iff. intros b. unfold between. tauto.
  - exfalso. apply Hn. exists r.
    assert (Hr : r ∈ filter (fun b => Balance.userId b = u /\ Balance.friendId b = f
                                      /\ Balance.amount b <> 0) (balance d))
      by (rewrite E; left).
    apply list_elem_of_filter in Hr. tauto.
Qed.

Lemma mirrored_outstanding (u f : Z) (t : list Balance.t) :
  mirrored t -> outstanding u f t <-> owed_row u f t.
Proof.
  intros Hm. split.
  - intros ([a b c x] & Hin & [[Hu Hf]|[Hu Hf]] & Ha); simpl in *; subst.
    + exists (Balance.mk u f c x). simpl. tauto.
    + exists (Balance.mk u f c (- x)). simpl.
      split; [now apply Hm|]. repeat split; lia.
  - intros (b & Hin & Hu & Hf & Ha). exists b. unfold between. tauto.
Qed.

(** C2: on a store that keeps the mirrored-pair invariant, [deleteFriend]
    throws BAD_REQUEST exactly when some currency balance of the pair is not
    0; a failed call leaves the store as it was; a successful one removes
    the rows of the pair in both directions, for every currency, and
    nothing else. *)
Theorem deleteFriend_outstanding_balance (u f : Z) (d : Db) :
  mirrored (balance d) ->
  ((exists e, snd (deleteFriend u f d) = inl e) <-> outstanding u f (balance d))
  /\ (forall e, snd (deleteFriend u f d) = inl e ->
        e = mkError BAD_REQUEST "You have outstanding balances with this friend"
        /\ fst (deleteFriend u f d) = d)
  /\ (snd (deleteFriend u f d) = inr tt ->
        fst (deleteFriend u f d)
        = set_balance (filter (fun b => ~ between u f b)) d
        /\ (forall b, b ∈ balance (fst (deleteFriend u f d)) <->
                      b ∈ balance d /\ ~ between u f b)
        /\ (forall c x, (Balance.mk u f c x ∉ balance (fst (deleteFriend u f d)))
                        /\ (Balance.mk f u c x ∉ balance (fst (deleteFriend u f d))))).
Proof.
  intros Hm. rewrite (mirrored_outstanding u f _ Hm).
  destruct (decide (owed_row u f (balance d))) as [Ho|Hn].
  - rewrite (deleteFriend_fail u f d Ho). simpl. split; [|split].
    + split; [intros _; exact Ho|eauto].
    + intros e [= <-]. split; reflexivity.
    + discriminate.
  - rewrite (deleteFriend_ok u f d Hn). simpl. split; [|split].
    + split; [intros [e He]; discriminate|tauto].
    + discriminate.
    + intros _. split; [reflexivity|]. split.
      * intros b. rewrite list_elem_of_filter. tauto.
      * intros c x. rewrite !list_elem_of_filter. unfold between. simpl.
        split; tauto.
Qed.

Lemma ledger_example_mirrored : mirrored (balance ledger_example).
Proof.
  intros a b c x Hin. simpl in Hin.
  repeat (apply elem_of_cons in Hin as [[= -> -> -> ->]|Hin];
          [simpl; rewrite !elem_of_cons; tauto|]).
  inversion Hin.
Defined.

Lemma deleteFriend_outstanding_balance_witness :
  fst (deleteFriend 1 2 ledger_example)
  = set_balance (fun _ => [Balance.mk 1 3 "EUR" 4; Balance.mk 3 1 "EUR" (-4)]) emptyDb
  /\ (exists e, snd (deleteFriend 1 3 ledger_example) = inl e).
Proof.
  split.
  - apply (deleteFriend_outstanding_balance 1 2 ledger_example
             ledger_example_mirrored).
    reflexivity.
  - apply (deleteFriend_outstanding_balance 1 3 ledger_example
             ledger_example_mirrored).
    exists (Balance.mk 1 3 "EUR" 4). unfold between. simpl.
    rewrite !elem_of_cons. split; [tauto|]. split; [tauto|lia].
Defined.

(** ** The mirrored-pair invariant *)

Section Mirrored.
Lemma elem_of_upsert_increment (u f : Z) (c : string) (delta : Z)
    (t : list Balance.t) (r : Balance.t) :
  r ∈ SplitService.upsert_increment u f c delta t <->
  (Balance.key r <> (u, f, c) /\ r ∈ t)
  \/ (exists x, Balance.mk u f c x ∈ t /\ r = Balance.mk u f c (x + delta))
  \/ ((forall x, Balance.mk u f c x ∉ t) /\ r = Balance.mk u f c delta).
Proof.
  unfold SplitService.upsert_increment. case_decide as Hex.
  - rewrite list_elem_of_fmap. split.
    + intros (y & -> & Hy). case_decide as Hk.
      * right. left. exists (Balance.amount y). split; [|reflexivity].
        destruct y as [a b c' x]. unfold Balance.key in Hk. simpl in *.
        now inversion Hk; subst.
      * left. tauto.
    + intros [[Hk Hin]|[(x & Hin & ->)|[Hno ->]]].
      * exists r. rewrite decide_False by exact Hk. tauto.
      * exists (Balance.mk u f c x). rewrite decide_True by reflexivity. tauto.
      * exfalso. apply Exists_exists in Hex as ([a b c' x] & Hin & Hk).
        unfold Balance.key in Hk. simpl in Hk. inversion Hk; subst.
        exact (Hno x Hin).
  - rewrite elem_of_app, list_elem_of_singleton. split.
    + intros [Hin| ->].
      * left. split; [|exact Hin]. intros Hk. apply Hex.
        apply Exists_exists. eauto.
      * right. right. split; [|reflexivity]. intros x Hin. apply Hex.
        apply Exists_exists. eexists. split; [exact Hin|reflexivity].
    + intros [[Hk Hin]|[(x & Hin & ->)|[Hno ->]]]; [tauto| |tauto].
      exfalso. apply Hex. apply Exists_exists.
      eexists. split; [exact Hin|reflexivity].
Qed.

(** Writing a pair of distinct users keeps the two directions negations
    of each other. *)
Lemma upsert_pair_mirrored (p q : Z) (c : string) (share : Z)
    (t : list Balance.t) :
  p <> q -> mirrored t -> mirrored (SplitService.upsert_pair p q c share t).
Proof.
  intros Hpq Hm a b c' x. unfold SplitService.upsert_pair.
  rewrite 2!(elem_of_upsert_increment q p), 2!(elem_of_upsert_increment p q).
  unfold Balance.key. simpl.
  intros [[Hk2 [[Hk1 Hin]|[(y & Hin & E)|[Hno E]]]]|[(y & Hy & E)|[Hno E]]].
  - (* a row of another key *)
    left. split; [congruence|]. left. split; [congruence|]. now apply Hm.
  - (* the payer's row, incremented *)
    inversion E; subst. right. left. exists (- y). split.
    + apply elem_of_upsert_increment. left.
      split; [unfold Balance.key; simpl; congruence|]. now apply Hm.
    + f_equal. lia.
  - (* the payer's row, created *)
    inversion E; subst. right. right. split; [|f_equal; lia].
    intros z Hz. apply elem_of_upsert_increment in Hz.
    unfold Balance.key in Hz. simpl in Hz.
    destruct Hz as [[_ Hz]|[(y & _ & E')|[_ E']]]; try congruence.
    apply Hm in Hz. exact (Hno _ Hz).
  - (* the participant's row, incremented *)
    inversion E; subst. left. split; [congruence|].
    apply elem_of_upsert_increment in Hy.
    unfold Balance.key in Hy. simpl in Hy.
    destruct Hy as [[_ Hy]|[(z & _ & E')|[_ E']]]; try congruence.
    right. left. exists (- y). split; [now apply Hm|f_equal; lia].
  - (* the participant's row, created *)
    inversion E; subst. left. split; [congruence|].
    right. right. split; [|f_equal; lia].
    intros z Hz. apply Hm in Hz. apply (Hno (- z)).
    apply elem_of_upsert_increment. left.
    split; [unfold Balance.key; simpl; congruence|exact Hz].
Qed.

Lemma applyExpenseDelta_mirrored (sign : Z) (c : string) (ps : list (Z * Z))
    (paidBy : Z) (t : list Balance.t) :
  mirrored t -> mirrored (SplitService.applyExpenseDelta sign c ps paidBy t).
Proof.
  unfold SplitService.applyExpenseDelta. revert t.
  induction ps as [|p ps IH]; intros t Hm; [exact Hm|].
  simpl. apply IH. case_decide; [exact Hm|].
  apply upsert_pair_mirrored; [congruence|exact Hm].
Qed.

Lemma filter_not_between_mirrored (u f : Z) (t : list Balance.t) :
  mirrored t -> mirrored (filter (fun b => ~ between u f b) t).
Proof.
  intros Hm a b c x. rewrite !list_elem_of_filter. unfold between. simpl.
  intros [Hn Hin]. split; [tauto|now apply Hm].
Qed.

Lemma deleteFriend_mirrored (u f : Z) (d : Db) :
  mirrored (balance d) -> mirrored (balance (fst (deleteFriend u f d))).
Proof.
  intros Hm. destruct (decide (owed_row u f (balance d))) as [Ho|Hn].
  - now rewrite (deleteFriend_fail u f d Ho).
  - rewrite (deleteFriend_ok u f d Hn). simpl.
    now apply filter_not_between_mirrored.
Qed.

Lemma service_deleteExpense_mirrored (id : string) (by_ : Z) (d : Db) :
  mirrored (balance d) ->
  mirrored (balance (fst (SplitService.deleteExpense id by_ d))).
Proof.
  intros Hm. unfold SplitService.deleteExpense, bind, findUnique, gets.
  case_head as e; simpl; [|exact Hm].
  destruct (Expense.deletedBy e); simpl; [exact Hm|].
  now apply applyExpenseDelta_mirrored.
Qed.

Lemma run_op_mirrored (o : LedgerOp) (d : Db) :
  mirrored (balance d) -> mirrored (balance (fst (run_op o d))).
Proof.
  intros Hm. destruct o; unfold run_op.
  - now apply applyExpenseDelta_mirrored.
  - unfold SplitService.editExpense, bind, findUnique, gets.
    case_head as e; simpl; [|exact Hm].
    now do 2 apply applyExpenseDelta_mirrored.
  - unfold deleteExpense, bind, findUnique, gets.
    case_head as p; [|exact Hm].
    now apply service_deleteExpense_mirrored.
  - now apply (applyExpenseDelta_mirrored 1 c [(receiver, amount)] payer).
  - now apply deleteFriend_mirrored.
Qed.
End Mirrored.

(** X1: [deleteFriend] decides on the acting user's own rows towards the
    friend alone: it throws BAD_REQUEST, leaving the store as it was,
    exactly when one of them has a non-zero amount, and otherwise removes
    the rows of the pair in both directions, whatever the friend's rows
    hold. *)
Theorem deleteFriend_checks_own_rows (u f : Z) (d : Db) :
  ((exists e, snd (deleteFriend u f d) = inl e) <-> owed_row u f (balance d))
  /\ (owed_row u f (balance d) ->
      deleteFriend u f d
      = (d, inl (mkError BAD_REQUEST
                   "You have outstanding balances with this friend")))
  /\ (~ owed_row u f (balance d) ->
      deleteFriend u f d
      = (set_balance (filter (fun b => ~ between u f b)) d, inr tt)).
Proof.
  split; [|split; [apply deleteFriend_fail|apply deleteFriend_ok]].
  destruct (decide (owed_row u f (balance d))) as [Ho|Hn].
  - rewrite (deleteFriend_fail u f d Ho). simpl. split; eauto.
  - rewrite (deleteFriend_ok u f d Hn). simpl.
    split; [intros [e He]; discriminate|tauto].
Qed.

(** X2: [deleteFriend] keeps the mirrored-pair invariant, whether it throws
    or removes the rows of the pair. *)
Theorem deleteFriend_preserves_mirrored (u f : Z) (d : Db) :
  mirrored (balance d) -> mirrored (balance (fst (deleteFriend u f d))).
Proof. apply deleteFriend_mirrored. Qed.

Lemma deleteFriend_preserves_mirrored_witness :
  mirrored (balance (fst (deleteFriend 1 2 ledger_example))).
Proof.
  apply (deleteFriend_preserves_mirrored 1 2 ledger_example).
  exact ledger_example_mirrored.
Defined.

(** C1: after every sequence of ledger operations (expense creation, editing
    and deletion, settlement, friend removal) run from a store that keeps
    the mirrored-pair invariant, every stored row (a, b, c) with amount x
    has its mirror row (b, a, c) with amount -x. *)
Theorem ledger_mirrored (ops : list LedgerOp) (d : Db) :
  mirrored (balance d) ->
  forall a b c x,
    Balance.mk a b c x ∈ balance (run_ops ops d) ->
    Balance.mk b a c (- x) ∈ balance (run_ops ops d).
Proof.
  unfold run_ops. revert d. induction ops as [|o ops IH]; intros d Hm.
  - exact Hm.
  - simpl. apply IH. now apply run_op_mirrored.
Qed.

Lemma ledger_mirrored_witness :
  Balance.mk 2 1 "USD" (- 5)
  ∈ balance (run_ops [CreateExpense "e1" 1 "USD" 10 [(1, 5); (2, 5)];
                      DeleteFriend 1 3] ledger_example).
Proof.
  apply (ledger_mirrored _ ledger_example ledger_example_mirrored 1 2 "USD" 5).
  vm_compute. repeat constructor.
Defined.

(** The example of the specification: rows +20 / -20, an expense of 10 USD
    paid by A and split evenly with B gives +25 / -25, and deleting it gives
    +20 / -20 again. *)
Example spec_example_create_delete :
  let d0 := set_balance (fun _ => [Balance.mk 1 2 "USD" 20; Balance.mk 2 1 "USD" (-20)])
                        emptyDb in
  let d1 := run_ops [CreateExpense "e" 1 "USD" 10 [(1, 5); (2, 5)]] d0 in
  let d2 := run_ops [DeleteExpense 2 "e"] d1 in
  balance d1 = [Balance.mk 1 2 "USD" 25; Balance.mk 2 1 "USD" (-25)]
  /\ balance d2 = [Balance.mk 1 2 "USD" 20; Balance.mk 2 1 "USD" (-20)]
  /\ (Expense.deletedBy <$> expense d2) = [Some 2].
Proof. vm_compute. repeat split. Qed.

(** Deleting the expense of the example a second time changes nothing:
    the rows stay at +20 / -20 and the expense stays deleted by the user who
    deleted it first. *)
Example spec_example_delete_twice :
  let d0 := set_balance (fun _ => [Balance.mk 1 2 "USD" 20; Balance.mk 2 1 "USD" (-20)])
                        emptyDb in
  let d2 := run_ops [CreateExpense "e" 1 "USD" 10 [(1, 5); (2, 5)];
                     DeleteExpense 2 "e"] d0 in
  run_op (DeleteExpense 1 "e") d2 = (d2, inr tt)
  /\ balance d2 = [Balance.mk 1 2 "USD" 20; Balance.mk 2 1 "USD" (-20)]
  /\ (Expense.deletedBy <$> expense d2) = [Some 2].
Proof. vm_compute. repeat split. Qed.

(** ** Contributions and their reversal *)

Lemma key_upsert_row (u f : Z) (c : string) (delta : Z) (b : Balance.t) :
  Balance.key (if decide (Balance.key b = (u, f, c))
               then Balance.mk u f c (Balance.amount b + delta)
               else b) = Balance.key b.
Proof. case_decide as Hk; [|reflexivity]. now rewrite Hk. Qed.

Lemma head_filter_fmap_key (g : Balance.t -> Balance.t) (k : Z * Z * string)
    (t : list Balance.t) :
  (forall b, Balance.key (g b) = Balance.key b) ->
  head (filter (fun b => Balance.key b = k) (g <$> t))
  = g <$> head (filter (fun b => Balance.key b = k) t).
Proof.
  intros Hg. induction t as [|b t IH]; [reflexivity|].
  rewrite fmap_cons, !filter_cons, Hg. now case_decide.
Qed.

Lemma balance_of_upsert_increment (u f : Z) (c : string) (delta : Z)
    (t : list Balance.t) (key : Z * Z * string) :
  balance_of (SplitService.upsert_increment u f c delta t) key
  = balance_of t key + (if decide (key = (u, f, c)) then delta else 0).
Proof.
  unfold SplitService.upsert_increment, balance_of. case_decide as Hex.
  - rewrite (head_filter_fmap_key _ key t (key_upsert_row u f c delta)).
    destruct (head (filter (fun b => Balance.key b = key) t)) as [b|] eqn:E; simpl.
    + apply head_Some_elem_of, list_elem_of_filter in E as [Hk _].
      rewrite Hk. case_decide; simpl; lia.
    + rewrite decide_False; [lia|]. intros ->.
      apply head_None in E. apply Exists_exists in Hex as (b & Hb & Hk).
      exact (filter_nil_not_elem_of _ _ b E Hk Hb).
  - rewrite filter_app, filter_cons, filter_nil. unfold Balance.key at 2. simpl.
    destruct (filter (fun b => Balance.key b = key) t) as [|b l] eqn:E; simpl.
    + case_decide as H1; case_decide as H2; simpl; try lia;
        unfold Balance.key in *; simpl in *; congruence.
    + case_decide as H2; [|lia]. exfalso. apply Hex. apply Exists_exists.
      exists b.
      match type of E with
      | ?l = _ => assert (Hb : b ∈ l) by (rewrite E; left)
      end.
      apply list_elem_of_filter in Hb as [Hk Hb]. split; [exact Hb|].
      unfold Balance.key in *. simpl in *. congruence.
Qed.

(** Applying ([sign] 1) or reversing ([sign] -1) an expense moves the
    balance of every key by its contribution. *)
Lemma balance_of_applyExpenseDelta (sign : Z) (c : string) (ps : list (Z * Z))
    (paidBy : Z) (t : list Balance.t) (key : Z * Z * string) :
  balance_of (SplitService.applyExpenseDelta sign c ps paidBy t) key
  = balance_of t key + sign * contribution c ps paidBy key.
Proof.
  unfold SplitService.applyExpenseDelta. revert t.
  induction ps as [|p ps IH]; intros t; simpl; [lia|].
  rewrite IH. case_decide as Hp; [lia|].
  unfold SplitService.upsert_pair. rewrite !balance_of_upsert_increment.
  repeat case_decide; lia.
Qed.

(** Reversing a contribution that was applied gives every key the balance
    it had. *)
Lemma applyExpenseDelta_reverse (c : string) (ps : list (Z * Z)) (paidBy : Z)
    (t : list Balance.t) (key : Z * Z * string) :
  balance_of (SplitService.applyExpenseDelta (-1) c ps paidBy
                (SplitService.applyExpenseDelta 1 c ps paidBy t)) key
  = balance_of t key.
Proof. rewrite !balance_of_applyExpenseDelta. lia. Qed.

(** ** Expense deletion *)

Lemma deleteExpense_not_participant (u : Z) (E : string) (d : Db) :
  ~ participant u E d ->
  deleteExpense u E d
  = (d, inl (mkError UNAUTHORIZED "You are not the participant of the expense")).
Proof.
  intros Hn. unfold deleteExpense, bind, findUnique, gets.
  case_head as p; [|reflexivity].
  exfalso. apply Hn. exists p. apply head_Some_elem_of in Heqo.
  apply list_elem_of_filter in Heqo. tauto.
Qed.

Lemma deleteExpense_participant (u : Z) (E : string) (d : Db) :
  participant u E d ->
  deleteExpense u E d = SplitService.deleteExpense E u d.
Proof.
  intros (p & Hin & HE & Hu). unfold deleteExpense, bind, findUnique, gets.
  case_head as q; [reflexivity|].
  exfalso. apply head_None in Heqo.
  eapply filter_nil_not_elem_of; [exact Heqo| |exact Hin]. cbv beta. tauto.
Qed.

Lemma service_deleteExpense_never_unauthorized (E : string) (u : Z) (d : Db) (e : TRPCError) :
  snd (SplitService.deleteExpense E u d) = inl e -> code e = NOT_FOUND /\ fst (SplitService.deleteExpense E u d) = d.
Proof.
  unfold SplitService.deleteExpense, bind, findUnique, gets.
  case_head as x; simpl; [|intros [= <-]; split; reflexivity].
  destruct (Expense.deletedBy x); discriminate.
Qed.

Lemma head_filter_fmap {A} (P : A -> Prop) `{!forall x, Decision (P x)}
    (f : A -> A) (l : list A) :
  (forall x, P (f x) <-> P x) ->
  head (filter P (f <$> l)) = f <$> head (filter P l).
Proof.
  intros Hf. induction l as [|x l IH]; [reflexivity|].
  rewrite fmap_cons, !filter_cons.
  destruct (decide (P x)) as [Hx|Hx].
  - rewrite decide_True by now apply Hf. reflexivity.
  - rewrite decide_False by now rewrite Hf. exact IH.
Qed.

(** C5: [deleteExpense] throws UNAUTHORIZED exactly when the acting user has
    no participant row for the expense, and then the store (the expense and
    every balance row with it) is as it was; for a participant the call
    succeeds, the expense row stays in the table and is marked deleted
    afterwards, and when it was not deleted before, it is marked deleted by
    the acting user and the contribution of its participant records is
    reversed on the balance table: the balance of every key goes down by
    what the expense had contributed to it. *)
Theorem deleteExpense_unauthorized (u : Z) (E : string) (d : Db) :
  ((exists e, snd (deleteExpense u E d) = inl e /\ code e = UNAUTHORIZED)
   <-> ~ participant u E d)
  /\ (~ participant u E d ->
      deleteExpense u E d
      = (d, inl (mkError UNAUTHORIZED "You are not the participant of the expense")))
  /\ (participant u E d ->
      forall e, expense_by_id E d = Some e ->
        exists d',
          deleteExpense u E d = (d', inr tt)
          /\ Expense.id <$> expense d' = Expense.id <$> expense d
          /\ (exists e' by_, expense_by_id E d' = Some e'
                             /\ Expense.deletedBy e' = Some by_)
          /\ (forall x, Expense.id x <> E -> x ∈ expense d' <-> x ∈ expense d)
          /\ expenseParticipant d' = expenseParticipant d
          /\ (Expense.deletedBy e = None ->
              balance d'
              = SplitService.applyExpenseDelta (-1) (Expense.currency e)
                  (SplitService.participants_of E (expenseParticipant d))
                  (Expense.paidBy e) (balance d)
              /\ (forall key,
                    balance_of (balance d') key
                    = balance_of (balance d) key
                      - contribution (Expense.currency e)
                          (SplitService.participants_of E (expenseParticipant d))
                          (Expense.paidBy e) key)
              /\ (forall x, x ∈ expense d' -> Expense.id x = E ->
                            Expense.deletedBy x = Some u)))
  /\ (participant u E d -> expense_by_id E d = None ->
      deleteExpense u E d = (d, inl (mkError NOT_FOUND "Expense not found"))).
Proof.
  split; [|split; [|split]].
  - split.
    + intros (e & He & Hc) Hp.
      rewrite (deleteExpense_participant u E d Hp) in He.
      apply service_deleteExpense_never_unauthorized in He as [He _]. congruence.
    + intros Hn. rewrite (deleteExpense_not_participant u E d Hn). simpl. eauto.
  - apply deleteExpense_not_participant.
  - intros Hp e He. rewrite (deleteExpense_participant u E d Hp).
    unfold SplitService.deleteExpense, bind, findUnique, gets.
    pose proof He as Hfound. unfold expense_by_id in He. rewrite He.
    destruct (Expense.deletedBy e) as [by_|] eqn:Hdel.
    + exists d. split; [reflexivity|]. split; [reflexivity|].
      split; [exists e, by_; now split|].
      split; [reflexivity|]. split; [reflexivity|discriminate].
    + eexists. split; [reflexivity|]. simpl.
      split; [|split; [|split; [|split; [reflexivity|]]]].
      * rewrite <- list_fmap_compose. apply list_fmap_ext.
        intros i x _. simpl. now case_decide.
      * unfold expense_by_id. cbn [expense set_balance set_expense].
        rewrite head_filter_fmap, He by (intros x; now case_decide).
        eexists _, u. split; [reflexivity|].
        cbn [fmap option_fmap option_map]. rewrite decide_True; [reflexivity|].
        apply head_Some_elem_of, list_elem_of_filter in He. tauto.
      * intros x Hid. rewrite list_elem_of_fmap. split.
        -- intros (y & -> & Hy).
           case_decide as Hd; [simpl in Hid; congruence|exact Hy].
        -- intros Hx. exists x. now rewrite decide_False.
      * intros _. split; [reflexivity|].
        split; [intros key; rewrite balance_of_applyExpenseDelta; lia|].
        intros x Hx Hid. apply list_elem_of_fmap in Hx as (y & -> & Hy).
        case_decide as Hd; [reflexivity|]. congruence.
  - intros Hp He. rewrite (deleteExpense_participant u E d Hp).
    unfold SplitService.deleteExpense, bind, findUnique, gets.
    unfold expense_by_id in He. now rewrite He.
Qed.

(** ** Invitations *)

Lemma split_head (sep : ascii) (s : string) :
  exists piece pieces, split sep s = piece :: pieces.
Proof.
  induction s as [|ch rest (piece & pieces & IH)]; simpl; [eauto|].
  destruct (Ascii.eqb ch sep); [eauto|]. rewrite IH. eauto.
Qed.

(** [email.split('@')[0]] is the address up to its first '@'. *)
Lemma split_at_head (s : string) : head (split "@" s) = Some (before_at s).
Proof.
  induction s as [|ch rest IH]; simpl; [reflexivity|].
  destruct (Ascii.eqb ch "@"); [reflexivity|].
  destruct (split "@" rest) as [|piece pieces]; simpl in *; [discriminate|].
  now inversion IH.
Qed.

Lemma before_at_prefix (s : string) :
  exists rest, s = (before_at s ++ rest)%string
               /\ (rest = EmptyString \/ exists tl, rest = String "@" tl).
Proof.
  induction s as [|ch s (rest & IH & Hrest)]; simpl.
  - exists EmptyString. auto.
  - destruct (Ascii.eqb ch "@") eqn:E.
    + apply Ascii.eqb_eq in E as ->. exists (String "@" s). simpl. eauto.
    + exists rest. split; [|exact Hrest].
      change (String ch s = String ch (before_at s ++ rest)%string).
      now f_equal.
Qed.

Lemma before_at_no_at (s : string) (i : nat) :
  String.get i (before_at s) <> Some "@"%char.
Proof.
  revert i. induction s as [|ch s IH]; intros i; simpl; [discriminate|].
  destruct (Ascii.eqb ch "@") eqn:E; simpl; [discriminate|].
  destruct i; [|apply IH].
  intros [= ->]. now rewrite Ascii.eqb_refl in E.
Qed.

(** C9: when a user with the address exists, [inviteFriend] returns that
    user and leaves the store (the user table with it) as it was; otherwise
    it appends exactly one user row, whose email is the address and whose
    name is the address up to its first '@', and returns it. *)
Theorem inviteFriend_existing_or_created
    (sname semail : option string)
    (email : string) (send : option bool) (d : Db) :
  ((exists u, u ∈ user d /\ User.email u = Some email) ->
   exists friend,
     inviteFriend sname semail email send d = (d, inr friend)
     /\ friend ∈ user d /\ User.email friend = Some email)
  /\ ((forall u, u ∈ user d -> User.email u <> Some email) ->
      exists created d',
        inviteFriend sname semail email send d = (d', inr created)
        /\ user d' = user d ++ [created]
        /\ User.email created = Some email
        /\ User.name created = Some (before_at email)
        /\ balance d' = balance d /\ expense d' = expense d
        /\ group d' = group d /\ groupUser d' = groupUser d).
Proof.
  unfold inviteFriend, bind, findUnique, gets. split.
  - intros (u & Hin & Hu). case_head as friend.
    + exists friend. split; [reflexivity|].
      apply head_Some_elem_of, list_elem_of_filter in Heqo. tauto.
    + exfalso. apply head_None in Heqo.
      eapply filter_nil_not_elem_of; [exact Heqo| |exact Hin]. exact Hu.
  - intros Hno. case_head as friend.
    + exfalso. apply head_Some_elem_of, list_elem_of_filter in Heqo as [He Hin].
      exact (Hno friend Hin He).
    + unfold user_create. rewrite split_at_head.
      destruct (default false send); simpl; eexists _, _;
        (split; [reflexivity|]); simpl; repeat split.
Qed.

Example inviteFriend_ex :
  inviteFriend (Some "Ann") None "bob@example.org" (Some true) emptyDb
  = (set_outbox (fun _ => [("bob@example.org", "Ann")])
       (set_user (fun _ => [User.mk 1 (Some "bob") (Some "bob@example.org")]) emptyDb),
     inr (User.mk 1 (Some "bob") (Some "bob@example.org"))).
Proof. reflexivity. Qed.

(** ** [shuffleArray] *)

Section ShuffleArrayFacts.
Context {V : Type} (undefined : V).

Lemma array_get_in_bounds (array : list V) (i : nat) (x : V) :
  array !! i = Some x -> array_get undefined array (Z.of_nat i) = x.
Proof.
  intros H. unfold array_get. rewrite decide_True by lia.
  now rewrite Nat2Z.id, H.
Qed.

Lemma array_set_in_bounds (array : list V) (i : nat) (x : V) :
  (i < length array)%nat ->
  array_set undefined array (Z.of_nat i) x = <[i := x]> array.
Proof.
  intros H. unfold array_set. rewrite decide_True by lia.
  rewrite Nat2Z.id. now rewrite decide_True by exact H.
Qed.

(** A turn of the loop at [currentIndex = S n <= length array]: both
    indices are the array's, and the turn swaps two of its elements. *)
Lemma shuffle_body_swap (randomIndex : Z) (array : list V) (n : nat) :
  0 <= randomIndex < Z.of_nat (S n) -> (S n <= length array)%nat ->
  exists array' accesses,
    shuffle_body undefined randomIndex array (Z.of_nat (S n))
    = (array', Z.of_nat n, accesses)
    /\ array' ≡ₚ array
    /\ length array' = length array
    /\ Forall in_bounds accesses.
Proof.
  intros Hr Hn. unfold shuffle_body.
  replace (Z.of_nat (S n) - 1) with (Z.of_nat n) by lia.
  destruct (Z_of_nat_complete randomIndex ltac:(lia)) as [r ->].
  destruct (lookup_lt_is_Some_2 array r ltac:(lia)) as [xr Hxr].
  destruct (lookup_lt_is_Some_2 array n ltac:(lia)) as [xn Hxn].
  rewrite (array_get_in_bounds _ _ _ Hxr), (array_get_in_bounds _ _ _ Hxn).
  rewrite (array_set_in_bounds array n) by lia.
  rewrite array_set_in_bounds by (rewrite length_insert; lia).
  eexists _, _. split; [reflexivity|]. split; [|split].
  - now apply Permutation_insert_swap.
  - now rewrite !length_insert.
  - rewrite length_insert. unfold in_bounds.
    repeat (constructor; [simpl; lia|]). constructor.
Qed.

Lemma shuffle_loop_permutation (random : nat -> Z -> Z) :
  draws_in_range random ->
  forall (n : nat) (array : list V) (calls : nat) (log : list (Z * nat)),
    (n <= length array)%nat ->
    exists shuffled accesses,
      (forall fuel, (n <= fuel)%nat ->
         shuffle_loop undefined fuel random calls array (Z.of_nat n) log
         = Some (shuffled, log ++ accesses))
      /\ shuffled ≡ₚ array
      /\ length shuffled = length array
      /\ Forall in_bounds accesses.
Proof.
  intros Hrand. induction n as [|n IH]; intros array calls log Hn.
  - exists array, []. split; [|split; [reflexivity|split; [reflexivity|constructor]]].
    intros [|fuel] _; simpl; now rewrite app_nil_r.
  - destruct (shuffle_body_swap (random calls (Z.of_nat (S n))) array n
                (Hrand calls (Z.of_nat (S n)) ltac:(lia)) Hn)
      as (array' & acc & Hbody & Hperm & Hlen & Hacc).
    destruct (IH array' (S calls) (log ++ acc) ltac:(lia))
      as (shuffled & accesses & Hloop & Hperm' & Hlen' & Hacc').
    exists shuffled, (acc ++ accesses). split; [|split; [|split]].
    + intros [|fuel] Hfuel; [lia|].
      cbn [shuffle_loop]. rewrite decide_False by lia.
      rewrite Hbody. rewrite Hloop by lia. now rewrite app_assoc.
    + now rewrite Hperm'.
    + lia.
    + apply Forall_app. split; assumption.
Qed.
End ShuffleArrayFacts.

(** C10: for every array and every sequence of random index draws, each
    an index below [currentIndex], the loop of [shuffleArray] ends after as
    many turns as the array has elements, the array it leaves is a
    permutation of the one it was given (same length, same elements as
    often), and every index it reads or writes is an index of the array. *)
Theorem shuffleArray_permutation {V : Type} (undefined : V)
    (random : nat -> Z -> Z) (array : list V) :
  draws_in_range random ->
  exists shuffled accesses,
    (forall fuel, (length array <= fuel)%nat ->
       shuffleArray undefined fuel random array = Some (shuffled, accesses))
    /\ shuffled ≡ₚ array
    /\ length shuffled = length array
    /\ Forall in_bounds accesses.
Proof.
  intros Hrand.
  destruct (shuffle_loop_permutation undefined random Hrand (length array)
              array 0%nat [] (Nat.le_refl _))
    as (shuffled & accesses & Hloop & Hperm & Hlen & Hacc).
  exists shuffled, accesses. unfold shuffleArray. auto.
Qed.

Lemma shuffleArray_permutation_witness :
  exists shuffled accesses,
    shuffleArray "" 3 (fun k n => if Nat.even k then 3 * n / 4 else n / 3)
      ["a"; "b"; "c"]
    = Some (shuffled, accesses)
    /\ shuffled ≡ₚ ["a"; "b"; "c"].
Proof.
  destruct (shuffleArray_permutation ""
              (fun k n => if Nat.even k then 3 * n / 4 else n / 3)
              ["a"; "b"; "c"]) as (shuffled & accesses & Hrun & Hperm & _).
  - intros k n Hn. destruct (Nat.even k).
    + split; [apply Z.div_pos; lia|apply Z.div_lt_upper_bound; lia].
    + split; [apply Z.div_pos; lia|apply Z.div_lt_upper_bound; lia].
  - exists shuffled, accesses. split; [apply Hrun; simpl; lia|exact Hperm].
Defined.

Example shuffleArray_ex :
  shuffleArray "" 3 (fun k n => if Nat.even k then 3 * n / 4 else n / 3)
    ["a"; "b"; "c"]
  = Some (["b"; "a"; "c"],
          [(2, 3%nat); (2, 3%nat); (2, 3%nat); (2, 3%nat);
           (0, 3%nat); (1, 3%nat); (1, 3%nat); (0, 3%nat);
           (0, 3%nat); (0, 3%nat); (0, 3%nat); (0, 3%nat)]).
Proof. vm_compute. reflexivity. Qed.

(** ** The import page *)

Section ImportPageFacts.
Import ImportPage.
Variable JSON_parse : string -> JSError + Value.
Variable positive_after_conversion : Value -> bool.













End ImportPageFacts.



(** ** Find-or-create *)

Section EnsureFacts.
Context {R I : Type} (matches : I -> R -> Prop)
        `{!forall i r, Decision (matches i r)} (create : I -> list R -> R).
Hypothesis create_matches : forall i t, matches i (create i t).

Lemma lookup_first_app (i : I) (t extra : list R) :
  is_Some (lookup_first matches i t) ->
  lookup_first matches i (t ++ extra) = lookup_first matches i t.
Proof.
  unfold lookup_first. rewrite filter_app.
  destruct (filter (matches i) t); simpl; [intros [x Hx]; discriminate|reflexivity].
Qed.

Lemma ensure_extends (i : I) (t : list R) :
  exists extra, ensure matches create i t = t ++ extra.
Proof.
  unfold ensure. destruct (lookup_first matches i t).
  - exists []. now rewrite app_nil_r.
  - eauto.
Qed.

Lemma ensure_all_extends (l : list I) (t : list R) :
  exists extra, ensure_all matches create l t = t ++ extra.
Proof.
  revert t. induction l as [|i l IH]; intros t; simpl.
  - exists []. now rewrite app_nil_r.
  - destruct (ensure_extends i t) as [e1 ->].
    destruct (IH (t ++ e1)) as [e2 ->]. exists (e1 ++ e2). now rewrite app_assoc.
Qed.

Lemma ensure_found (i : I) (t : list R) :
  is_Some (lookup_first matches i (ensure matches create i t)).
Proof.
  unfold ensure. destruct (lookup_first matches i t) eqn:E.
  - rewrite E. eauto.
  - unfold lookup_first in *. rewrite filter_app. apply head_None in E.
    rewrite E. simpl. rewrite filter_cons, decide_True by apply create_matches.
    simpl. eauto.
Qed.

Lemma ensure_present (i : I) (t : list R) :
  is_Some (lookup_first matches i t) -> ensure matches create i t = t.
Proof. unfold ensure. now intros [x ->]. Qed.

Lemma found_extends (i : I) (t extra : list R) :
  is_Some (lookup_first matches i t) ->
  is_Some (lookup_first matches i (t ++ extra)).
Proof. intros Hf. now rewrite lookup_first_app. Qed.

Lemma ensure_all_found (l : list I) (t : list R) (i : I) :
  i ∈ l -> is_Some (lookup_first matches i (ensure_all matches create l t)).
Proof.
  revert t. induction l as [|j l IH]; intros t Hi; [inversion Hi|].
  simpl. apply elem_of_cons in Hi as [->|Hi]; [|now apply IH].
  destruct (ensure_all_extends l (ensure matches create j t)) as [extra ->].
  apply found_extends, ensure_found.
Qed.

Lemma ensure_all_present (l : list I) (t : list R) :
  (forall i, i ∈ l -> is_Some (lookup_first matches i t)) ->
  ensure_all matches create l t = t.
Proof.
  revert t. induction l as [|j l IH]; intros t Hl; simpl; [reflexivity|].
  rewrite ensure_present by (apply Hl; left).
  apply IH. intros i Hi. apply Hl. now right.
Qed.

(** A second find-or-create of the same keys finds them all. *)
Lemma ensure_all_again (l : list I) (t extra : list R) :
  ensure_all matches create l (ensure_all matches create l t ++ extra)
  = ensure_all matches create l t ++ extra.
Proof.
  apply ensure_all_present. intros i Hi.
  apply found_extends. now apply ensure_all_found.
Qed.

Lemma ensure_all_twice (l : list I) (t : list R) :
  ensure_all matches create l (ensure_all matches create l t)
  = ensure_all matches create l t.
Proof. apply ensure_all_present. intros i Hi. now apply ensure_all_found. Qed.

Lemma ensure_all_app (l1 l2 : list I) (t : list R) :
  ensure_all matches create (l1 ++ l2) t
  = ensure_all matches create l2 (ensure_all matches create l1 t).
Proof. unfold ensure_all. apply foldl_app. Qed.
End EnsureFacts.

(** ** Imported balances: the last write wins *)

Section ImportWrites.
Import SplitwiseImport.

Lemma balance_eta (b : Balance.t) :
  Balance.mk (Balance.userId b) (Balance.friendId b) (Balance.currency b)
             (Balance.amount b) = b.
Proof. now destruct b. Qed.

Lemma last_write_from (ws : list (Z * Z * string * Z)) (key : Z * Z * string)
    (init : option Z) :
  foldl (fun acc w => if decide (fst w = key) then Some (snd w) else acc) init ws
  = match last_write ws key with Some v => Some v | None => init end.
Proof.
  unfold last_write. revert init. induction ws as [|w ws IH]; intros init; simpl.
  - reflexivity.
  - rewrite IH. rewrite (IH (if decide (fst w = key) then Some (snd w) else None)).
    destruct (foldl _ None ws); [reflexivity|]. now case_decide.
Qed.

Lemma last_write_cons (w : Z * Z * string * Z) (ws : list (Z * Z * string * Z))
    (key : Z * Z * string) :
  last_write (w :: ws) key
  = match last_write ws key with
    | Some v => Some v
    | None => if decide (fst w = key) then Some (snd w) else None
    end.
Proof. unfold last_write at 1. simpl. apply last_write_from. Qed.

Lemma last_write_snoc (ws : list (Z * Z * string * Z)) (w : Z * Z * string * Z)
    (key : Z * Z * string) :
  last_write (ws ++ [w]) key
  = if decide (fst w = key) then Some (snd w) else last_write ws key.
Proof. unfold last_write. now rewrite foldl_app. Qed.

Lemma overwrite_key (ws : list (Z * Z * string * Z)) (b : Balance.t) :
  Balance.key (overwrite ws b) = Balance.key b.
Proof. unfold overwrite. now destruct (last_write ws (Balance.key b)). Qed.

Lemma upsert_set_present (key : Z * Z * string) (v : Z) (t : list Balance.t) :
  has_key key t -> upsert_set key v t = overwrite [(key, v)] <$> t.
Proof.
  intros H. unfold upsert_set. rewrite decide_True by exact H.
  apply list_fmap_ext. intros _ b _. unfold overwrite, last_write. simpl.
  case_decide as Hk; case_decide as Hk'; try congruence.
  destruct b as [u f c x]. unfold Balance.key in Hk. simpl in *. now subst.
Qed.

Lemma has_key_fmap_overwrite (ws : list (Z * Z * string * Z)) (key : Z * Z * string)
    (t : list Balance.t) :
  has_key key (overwrite ws <$> t) <-> has_key key t.
Proof.
  unfold has_key. rewrite !Exists_exists. split.
  - intros (b & Hb & Hk). apply list_elem_of_fmap in Hb as (b' & -> & Hb').
    rewrite overwrite_key in Hk. eauto.
  - intros (b & Hb & Hk). exists (overwrite ws b).
    split; [now apply list_elem_of_fmap_2|now rewrite overwrite_key].
Qed.

Lemma has_key_upsert_set (key key' : Z * Z * string) (v : Z) (t : list Balance.t) :
  has_key key' (upsert_set key v t) <-> key' = key \/ has_key key' t.
Proof.
  destruct (decide (has_key key t)) as [Hk|Hk].
  - rewrite (upsert_set_present key v t Hk), has_key_fmap_overwrite.
    split; [tauto|]. intros [->|H]; assumption.
  - unfold upsert_set. rewrite decide_False by exact Hk.
    unfold has_key. rewrite Exists_app, Exists_cons, Exists_nil.
    unfold Balance.key. simpl. destruct key as [[u f] c]. simpl.
    split; [intros [H|[H|[]]]; auto|intros [H|H]; auto].
Qed.

Lemma has_key_writes (ws : list (Z * Z * string * Z)) (t : list Balance.t)
    (key : Z * Z * string) :
  has_key key (foldl apply_write t ws) <->
  has_key key t \/ key ∈ (fst <$> ws).
Proof.
  revert t. induction ws as [|w ws IH]; intros t; simpl.
  - rewrite elem_of_nil. tauto.
  - rewrite IH. unfold apply_write. rewrite has_key_upsert_set, elem_of_cons. tauto.
Qed.

(** When the table has every key that is written, the writes only change
    amounts, and each row ends with the amount of the last write to it. *)
Lemma writes_present (ws : list (Z * Z * string * Z)) (t : list Balance.t) :
  (forall w, w ∈ ws -> has_key (fst w) t) ->
  foldl apply_write t ws = overwrite ws <$> t.
Proof.
  revert t. induction ws as [|w ws IH]; intros t H; simpl.
  - symmetry. etransitivity; [|apply list_fmap_id]. apply list_fmap_ext.
    intros _ b _. reflexivity.
  - unfold apply_write at 2. destruct w as [key v]. simpl.
    rewrite (upsert_set_present key v t) by (apply (H (key, v)); left).
    rewrite IH.
    + rewrite <- list_fmap_compose. apply list_fmap_ext. intros _ b _. simpl.
      unfold overwrite at 1 3. rewrite overwrite_key, last_write_cons.
      destruct (last_write ws (Balance.key b)) as [x|].
      * unfold overwrite. now destruct (last_write [(key, v)] (Balance.key b)).
      * unfold overwrite, last_write. simpl. reflexivity.
    + intros w Hw. apply has_key_fmap_overwrite. apply H. now right.
Qed.

(** After the writes, every row already has the amount of the last write
    to its key. *)
Lemma writes_settled (ws : list (Z * Z * string * Z)) (t : list Balance.t)
    (b : Balance.t) :
  b ∈ foldl apply_write t ws -> overwrite ws b = b.
Proof.
  revert b. induction ws as [|w ws IH] using rev_ind; intros b.
  - reflexivity.
  - rewrite foldl_app. simpl. unfold apply_write at 1.
    destruct w as [[[u f] c] v]. simpl.
    assert (Hnew : overwrite (ws ++ [(u, f, c, v)]) (Balance.mk u f c v)
                   = Balance.mk u f c v).
    { unfold overwrite. rewrite last_write_snoc. simpl.
      now rewrite decide_True by reflexivity. }
    assert (Hold : forall b', b' ∈ foldl apply_write t ws ->
                     Balance.key b' <> (u, f, c) ->
                     overwrite (ws ++ [(u, f, c, v)]) b' = b').
    { intros b' Hb' Hne. unfold overwrite. rewrite last_write_snoc. simpl.
      rewrite decide_False by congruence. apply (IH _ Hb'). }
    unfold upsert_set. simpl. case_decide as Hk.
    + intros Hb. apply list_elem_of_fmap in Hb as (b' & -> & Hb').
      case_decide as Hkey; [exact Hnew|now apply Hold].
    + rewrite elem_of_app, list_elem_of_singleton. intros [Hb| ->]; [|exact Hnew].
      apply Hold; [exact Hb|]. intros Hkey. apply Hk. apply Exists_exists. eauto.
Qed.

(** Applying the same writes a second time changes nothing. *)
Lemma writes_again (ws : list (Z * Z * string * Z)) (t : list Balance.t) :
  foldl apply_write (foldl apply_write t ws) ws = foldl apply_write t ws.
Proof.
  rewrite writes_present.
  - etransitivity; [|apply list_fmap_id]. apply list_fmap_ext.
    intros i b Hb. apply (writes_settled ws t).
    apply list_elem_of_lookup. eauto.
  - intros w Hw. apply has_key_writes. right. now apply list_elem_of_fmap_2.
Qed.
End ImportWrites.

(** ** The import service computes the table transformations *)

Section ImportRuns.
Import SplitwiseImport.
Variable toAmount : string -> Z.
Variable currentUserId : Z.

Lemma with_tables_same (d : Db) :
  with_tables d (user d) (balance d) (group d) (groupUser d) = d.
Proof. now destruct d. Qed.

Lemma user_row_matches (i : string * string) (us : list User.t) :
  user_matches i (user_row i us).
Proof. reflexivity. Qed.

Lemma group_row_matches (i : Z * string) (gs : list Group.t) :
  group_matches i (group_row i gs).
Proof. reflexivity. Qed.

Lemma member_row_matches (i : GroupUser.t) (ms : list GroupUser.t) :
  member_matches i (member_row i ms).
Proof. split; reflexivity. Qed.

Lemma findOrCreateUser_run (f : SplitwiseUser.t) (d : Db) :
  exists u,
    findOrCreateUser (SplitwiseUser.email f) (SplitwiseUser.first_name f) d
    = (with_tables d (ensure user_matches user_row (user_key f) (user d))
         (balance d) (group d) (groupUser d), inr u)
    /\ User.id u
       = user_id_of f (ensure user_matches user_row (user_key f) (user d)).
Proof.
  pose proof (ensure_found user_matches user_row user_row_matches
                (user_key f) (user d)) as Hfound.
  unfold findOrCreateUser, bind, findUnique, gets, user_id_of.
  change (head (filter (fun u => User.email u = Some (SplitwiseUser.email f))
                       (user d)))
    with (lookup_first user_matches (user_key f) (user d)).
  unfold ensure in *.
  destruct (lookup_first user_matches (user_key f) (user d)) as [u|] eqn:E.
  - exists u. rewrite E. rewrite with_tables_same. split; reflexivity.
  - eexists. split; [reflexivity|].
    unfold lookup_first in *. rewrite filter_app. apply head_None in E.
    rewrite E. simpl. rewrite filter_cons.
    rewrite decide_True by reflexivity. reflexivity.
Qed.

Lemma user_id_stable (f : SplitwiseUser.t) (us extra : list User.t) :
  is_Some (lookup_first user_matches (user_key f) us) ->
  user_id_of f (us ++ extra) = user_id_of f us.
Proof. intros Hf. unfold user_id_of. now rewrite lookup_first_app. Qed.

Lemma group_id_stable (g : SplitwiseGroup.t) (gs extra : list Group.t) :
  is_Some (lookup_first group_matches (group_key g) gs) ->
  group_id_of g (gs ++ extra) = group_id_of g gs.
Proof. intros Hg. unfold group_id_of. now rewrite lookup_first_app. Qed.

Lemma import_writes_stable (us extra : list User.t) (fs : list SplitwiseUser.t) :
  (forall f, f ∈ fs -> is_Some (lookup_first user_matches (user_key f) us)) ->
  import_writes toAmount currentUserId (us ++ extra) fs
  = import_writes toAmount currentUserId us fs.
Proof.
  unfold import_writes. induction fs as [|f fs IH]; intros Hfs; simpl; [reflexivity|].
  rewrite user_id_stable by (apply Hfs; left).
  rewrite IH; [reflexivity|]. intros f' Hf'. apply Hfs. now right.
Qed.

Lemma importUserBalance_run (fs : list SplitwiseUser.t) (d : Db) :
  importUserBalanceFromSplitWise toAmount currentUserId fs d
  = (with_tables d
       (ensure_all user_matches user_row (user_key <$> fs) (user d))
       (foldl (apply_write) (balance d)
          (import_writes toAmount currentUserId
             (ensure_all user_matches user_row (user_key <$> fs) (user d)) fs))
       (group d) (groupUser d), inr tt).
Proof.
  unfold importUserBalanceFromSplitWise. revert d.
  induction fs as [|f fs IH]; intros d.
  - simpl. unfold ret. now rewrite with_tables_same.
  - cbn [for_each]. unfold bind at 1. unfold bind at 1.
    destruct (findOrCreateUser_run f d) as (u & -> & Hu).
    unfold modify. rewrite IH. clear IH. cbn [fmap list_fmap ensure_all foldl].
    unfold with_tables. simpl. f_equal. f_equal.
    fold (ensure_all user_matches user_row (user_key <$> fs)
            (ensure user_matches user_row (user_key f) (user d))).
    destruct (ensure_all_extends user_matches user_row (user_key <$> fs)
                (ensure user_matches user_row (user_key f) (user d)))
      as [extra Hextra].
    rewrite Hextra.
    unfold import_writes at 2. cbn [flat_map]. rewrite foldl_app.
    rewrite user_id_stable
      by apply (ensure_found user_matches user_row user_row_matches).
    rewrite Hu. f_equal.
Qed.
Lemma findOrCreateGroup_run (g : SplitwiseGroup.t) (d : Db) :
  exists row,
    findOrCreateGroup (SplitwiseGroup.id g) (SplitwiseGroup.name g) d
    = (with_tables d (user d) (balance d)
         (ensure group_matches group_row (group_key g) (group d))
         (groupUser d), inr row)
    /\ Group.id row
       = group_id_of g (ensure group_matches group_row (group_key g) (group d)).
Proof.
  unfold findOrCreateGroup, bind, findUnique, gets, group_id_of.
  change (head (filter (fun x => Group.splitwiseGroupId x = Some (SplitwiseGroup.id g))
                       (group d)))
    with (lookup_first group_matches (group_key g) (group d)).
  unfold ensure.
  destruct (lookup_first group_matches (group_key g) (group d)) as [row|] eqn:E.
  - exists row. rewrite E. rewrite with_tables_same. split; reflexivity.
  - eexists. split; [reflexivity|].
    unfold lookup_first in *. rewrite filter_app. apply head_None in E.
    rewrite E. simpl. rewrite filter_cons.
    rewrite decide_True by reflexivity. reflexivity.
Qed.

Lemma ensureMember_run (groupId userId : Z) (d : Db) :
  ensureMember groupId userId d
  = (with_tables d (user d) (balance d) (group d)
       (ensure member_matches member_row (GroupUser.mk groupId userId)
               (groupUser d)), inr tt).
Proof.
  unfold ensureMember, bind, findUnique, gets.
  change (head (filter (fun m => GroupUser.groupId m = groupId
                                 /\ GroupUser.userId m = userId) (groupUser d)))
    with (lookup_first member_matches (GroupUser.mk groupId userId) (groupUser d)).
  unfold ensure.
  destruct (lookup_first member_matches _ (groupUser d)).
  - unfold ret. now rewrite with_tables_same.
  - reflexivity.
Qed.

(** The member loop of one group, whose local id is [groupId]. *)
Lemma members_run (groupId : Z) (ms : list SplitwiseUser.t) (d : Db) :
  for_each ms (fun member =>
    dbUser <- findOrCreateUser (SplitwiseUser.email member)
                               (SplitwiseUser.first_name member) ;;
    ensureMember groupId (User.id dbUser)) d
  = (with_tables d
       (ensure_all user_matches user_row (user_key <$> ms) (user d))
       (balance d) (group d)
       (ensure_all member_matches member_row
          ((fun m => GroupUser.mk groupId
                       (user_id_of m (ensure_all user_matches user_row
                                        (user_key <$> ms) (user d)))) <$> ms)
          (groupUser d)), inr tt).
Proof.
  revert d. induction ms as [|m ms IH]; intros d.
  - simpl. unfold ret. now rewrite with_tables_same.
  - cbn [for_each]. unfold bind at 1. unfold bind at 1.
    destruct (findOrCreateUser_run m d) as (u & -> & Hu).
    rewrite ensureMember_run, IH. clear IH.
    cbn [fmap list_fmap ensure_all foldl user with_tables balance group groupUser].
    fold (ensure_all user_matches user_row (user_key <$> ms)
            (ensure user_matches user_row (user_key m) (user d))).
    destruct (ensure_all_extends user_matches user_row (user_key <$> ms)
                (ensure user_matches user_row (user_key m) (user d)))
      as [extra Hextra].
    rewrite Hextra.
    rewrite (user_id_stable m)
      by apply (ensure_found user_matches user_row user_row_matches).
    rewrite Hu. reflexivity.
Qed.

Lemma members_stable (gid : Z) (us extra : list User.t) (ms : list SplitwiseUser.t) :
  (forall m, m ∈ ms -> is_Some (lookup_first user_matches (user_key m) us)) ->
  (fun m => GroupUser.mk gid (user_id_of m (us ++ extra))) <$> ms
  = (fun m => GroupUser.mk gid (user_id_of m us)) <$> ms.
Proof.
  intros Hms. apply list_fmap_ext. intros i m Hm.
  rewrite user_id_stable; [reflexivity|].
  apply Hms. apply list_elem_of_lookup. eauto.
Qed.

Lemma importGroup_run (gs : list SplitwiseGroup.t) (d : Db) :
  importGroupFromSplitwise currentUserId gs d
  = (with_tables d
       (ensure_all user_matches user_row
          (user_key <$> flat_map SplitwiseGroup.members gs) (user d))
       (balance d)
       (groups_after gs (group d))
       (ensure_all member_matches member_row
          (import_members (groups_after gs (group d))
             (ensure_all user_matches user_row
                (user_key <$> flat_map SplitwiseGroup.members gs) (user d)) gs)
          (groupUser d)), inr tt).
Proof.
  unfold importGroupFromSplitwise, groups_after. revert d.
  induction gs as [|g gs IH]; intros d.
  - simpl. unfold ret. now rewrite with_tables_same.
  - cbn [for_each]. unfold bind at 1. unfold bind at 1.
    destruct (findOrCreateGroup_run g d) as (row & -> & Hrow).
    rewrite members_run, IH. clear IH.
    cbn [user with_tables balance group groupUser flat_map].
    rewrite fmap_app, ensure_all_app, fmap_cons.
    change (ensure_all group_matches group_row (group_key g :: (group_key <$> gs))
              (group d))
      with (ensure_all group_matches group_row (group_key <$> gs)
              (ensure group_matches group_row (group_key g) (group d))).
    set (U1 := ensure_all user_matches user_row
                 (user_key <$> SplitwiseGroup.members g) (user d)).
    set (G1 := ensure group_matches group_row (group_key g) (group d)).
    destruct (ensure_all_extends user_matches user_row
                (user_key <$> flat_map SplitwiseGroup.members gs) U1)
      as [extraU HU].
    destruct (ensure_all_extends group_matches group_row (group_key <$> gs) G1)
      as [extraG HG].
    rewrite HU, HG. unfold import_members at 2. cbn [flat_map].
    rewrite ensure_all_app.
    rewrite (group_id_stable g G1)
      by apply (ensure_found group_matches group_row group_row_matches).
    rewrite members_stable.
    + rewrite Hrow. reflexivity.
    + intros m Hm. apply (ensure_all_found user_matches user_row user_row_matches).
      now apply list_elem_of_fmap_2.
Qed.

(** Both imports in a row, as the router runs them. *)
Lemma importUsersFromSplitWise_run (fs : list SplitwiseUser.t)
    (gs : list SplitwiseGroup.t) (d : Db) :
  importUsersFromSplitWise currentUserId toAmount fs gs d
  = (with_tables d
       (users_after fs gs (user d))
       (foldl apply_write (balance d)
          (import_writes toAmount currentUserId (users_after fs gs (user d)) fs))
       (groups_after gs (group d))
       (ensure_all member_matches member_row
          (import_members (groups_after gs (group d))
             (users_after fs gs (user d)) gs)
          (groupUser d)), inr tt).
Proof.
  unfold importUsersFromSplitWise, bind.
  rewrite importUserBalance_run, importGroup_run.
  cbn [user with_tables balance group groupUser]. unfold users_after.
  destruct (ensure_all_extends user_matches user_row
              (user_key <$> flat_map SplitwiseGroup.members gs)
              (ensure_all user_matches user_row (user_key <$> fs) (user d)))
    as [extra Hextra].
  rewrite Hextra. rewrite import_writes_stable; [reflexivity|].
  intros f Hf. apply (ensure_all_found user_matches user_row user_row_matches).
  now apply list_elem_of_fmap_2.
Qed.

Lemma users_after_found_friend (fs : list SplitwiseUser.t)
    (gs : list SplitwiseGroup.t) (us : list User.t) (f : SplitwiseUser.t) :
  f ∈ fs ->
  is_Some (lookup_first user_matches (user_key f) (users_after fs gs us)).
Proof.
  intros Hf. unfold users_after.
  destruct (ensure_all_extends user_matches user_row
              (user_key <$> flat_map SplitwiseGroup.members gs)
              (ensure_all user_matches user_row (user_key <$> fs) us))
    as [extra ->].
  apply found_extends.
  apply (ensure_all_found user_matches user_row user_row_matches).
  now apply list_elem_of_fmap_2.
Qed.

Lemma users_after_again (fs : list SplitwiseUser.t) (gs : list SplitwiseGroup.t)
    (us : list User.t) :
  users_after fs gs (users_after fs gs us) = users_after fs gs us.
Proof.
  unfold users_after at 1.
  rewrite (ensure_all_present user_matches user_row (user_key <$> fs)).
  - apply ensure_all_present. intros i Hi. unfold users_after.
    now apply (ensure_all_found user_matches user_row user_row_matches).
  - intros i Hi. apply list_elem_of_fmap in Hi as (f & -> & Hf).
    now apply users_after_found_friend.
Qed.
(** C3: the import returns normally, and a second import of the same
    friends and groups returns normally and leaves every table as the first
    import left it: no user, group, membership or balance row is added
    (users are matched by email, groups by their external id, balance rows
    by their key) and no amount changes. *)
Theorem importUsersFromSplitWise_idempotent (fs : list SplitwiseUser.t)
    (gs : list SplitwiseGroup.t) (d : Db) :
  exists once,
    importUsersFromSplitWise currentUserId toAmount fs gs d = (once, inr tt)
    /\ importUsersFromSplitWise currentUserId toAmount fs gs once = (once, inr tt)
    /\ user once = users_after fs gs (user d)
    /\ group once = groups_after gs (group d).
Proof.
  eexists. split; [apply importUsersFromSplitWise_run|].
  split; [|split; reflexivity].
  rewrite importUsersFromSplitWise_run.
  cbn [user with_tables balance group groupUser expense expenseParticipant outbox].
  rewrite users_after_again. unfold groups_after.
  rewrite (ensure_all_twice group_matches group_row group_row_matches).
  rewrite writes_again.
  rewrite (ensure_all_twice member_matches member_row member_row_matches).
  reflexivity.
Qed.
End ImportRuns.

Example importUsersFromSplitWise_ex :
  let once := fst (importUsersFromSplitWise 1 amount_example
                     import_friends_example import_groups_example
                     import_store_example) in
  user once = [User.mk 1 (Some "Me") (Some "me@example.org");
               User.mk 2 (Some "Bob") (Some "bob@example.org");
               User.mk 3 (Some "Ann") (Some "ann@example.org")]
  /\ balance once = [Balance.mk 1 2 "USD" 3; Balance.mk 2 1 "USD" (-3);
                     Balance.mk 1 2 "EUR" 1; Balance.mk 2 1 "EUR" (-1)]
  /\ group once = [Group.mk 1 "Flat" (Some 31)]
  /\ groupUser once = [GroupUser.mk 1 2; GroupUser.mk 1 3]
  /\ fst (importUsersFromSplitWise 1 amount_example
            import_friends_example import_groups_example once) = once.
Proof. vm_compute. repeat split. Qed.


(** The handler validates nothing: an export whose [friends] is the empty
    string and whose groups hold a group with a string for its members is
    taken without an error, and the group is retained. *)
Example handleFileChange_no_validation :
  ImportPage.handleFileChange
    (fun _ => inr (ImportPage.VObject
                     [("friends", ImportPage.VString "");
                      ("groups", ImportPage.VArray
                         [ImportPage.VObject
                            [("id", ImportPage.VNumber 5);
                             ("members", ImportPage.VString "abc")]])]))
    (fun _ => false)
    [ImportPage.mkFile "export.json" "an ill-shaped export"] ImportPage.empty_page
  = ImportPage.mkPage []
      [ImportPage.VObject [("id", ImportPage.VNumber 5);
                           ("members", ImportPage.VString "abc")]]
      [] [ImportPage.VNumber 5]
      (Some (ImportPage.mkFile "export.json" "an ill-shaped export")) [].
Proof. reflexivity. Qed.

(** ** Friends: listing, removal and the page's guard *)

Lemma getFriends_eq (u : Z) (d : Db) :
  getFriends u d
  = (d, inr (filter (fun x => User.id x
                              ∈ remove_dups
                                  (Balance.friendId
                                     <$> filter (fun b => Balance.userId b = u)
                                                (balance d)))
                    (user d))).
Proof. reflexivity. Qed.

(** The ids [getFriends] looks users up by: the friends of the acting
    user's rows, settled or not. *)
Lemma elem_of_friend_ids (u x : Z) (t : list Balance.t) :
  x ∈ remove_dups (Balance.friendId <$> filter (fun b => Balance.userId b = u) t)
  <-> exists b, b ∈ t /\ Balance.userId b = u /\ Balance.friendId b = x.
Proof.
  rewrite elem_of_remove_dups, list_elem_of_fmap. split.
  - intros (b & -> & Hb). apply list_elem_of_filter in Hb. exists b. tauto.
  - intros (b & Hb & Hu & Hx). exists b. rewrite list_elem_of_filter. auto.
Qed.

(** With the store answering in storage order, [getFriends] after a
    successful [deleteFriend] lists the friends it listed before without the
    removed one. *)
Lemma getFriends_after_deleteFriend (u f : Z) (d : Db) :
  snd (deleteFriend u f d) = inr tt ->
  exists friends,
    getFriends u d = (d, inr friends)
    /\ getFriends u (fst (deleteFriend u f d))
       = (fst (deleteFriend u f d),
          inr (filter (fun x => User.id x <> f) friends)).
Proof.
  intros Hok.
  destruct (decide (owed_row u f (balance d))) as [Ho|Hn];
    [rewrite (deleteFriend_fail u f d Ho) in Hok; discriminate|].
  rewrite (deleteFriend_ok u f d Hn). cbn [fst].
  eexists. split; [apply getFriends_eq|].
  rewrite getFriends_eq. cbn [set_balance user balance].
  match goal with
  | |- (_, inr ?l1) = (_, inr ?l2) => assert (E : l1 = l2); [|now rewrite E]
  end.
  rewrite (list_filter_filter _ _ (user d)). apply list_filter_iff.
  intros x. rewrite !elem_of_friend_ids. split.
  - intros (b & Hb & Hu & Hx). apply list_elem_of_filter in Hb as [Hnb Hb].
    split; [|eauto]. intros Hxf. apply Hnb. left. split; congruence.
  - intros [Hxf (b & Hb & Hu & Hx)]. exists b. split; [|tauto].
    apply list_elem_of_filter. split; [|exact Hb].
    unfold between. intros [[_ Hbf]|[Hbu Hbf]]; congruence.
Qed.

(** In whatever order the store answers its two queries, [getFriends] is a
    read whose answer is an arrangement of the answer in storage order. *)
Lemma getFriends_any_order (order_ids : list Z -> list Z)
    (order_users : list User.t -> list User.t) (u : Z) (d : Db) :
  rearranges order_ids -> rearranges order_users ->
  exists friends stored,
    AnyOrder.getFriends u order_ids order_users d = (d, inr friends)
    /\ getFriends u d = (d, inr stored)
    /\ friends ≡ₚ stored.
Proof.
  intros Hids Husers. eexists _, _. split; [reflexivity|].
  split; [apply getFriends_eq|].
  rewrite (Husers _).
  match goal with
  | |- ?l1 ≡ₚ ?l2 => assert (E : l1 = l2); [|now rewrite E]
  end.
  apply list_filter_iff. intros x. now rewrite (Hids _).
Qed.

(** X3: once [deleteFriend] has succeeded, [getFriends] lists the friends it
    listed before without the removed one, each as often as before, in
    whatever order the store answers the queries before and after. *)
Theorem deleteFriend_then_getFriends
    (order_ids order_ids' : list Z -> list Z)
    (order_users order_users' : list User.t -> list User.t)
    (u f : Z) (d : Db) (friends : list User.t) :
  rearranges order_ids -> rearranges order_users ->
  rearranges order_ids' -> rearranges order_users' ->
  snd (AnyOrder.getFriends u order_ids order_users d) = inr friends ->
  snd (deleteFriend u f d) = inr tt ->
  exists friends',
    AnyOrder.getFriends u order_ids' order_users' (fst (deleteFriend u f d))
    = (fst (deleteFriend u f d), inr friends')
    /\ friends' ≡ₚ filter (fun x => User.id x <> f) friends.
Proof.
  intros Hids Husers Hids' Husers' Hfriends Hok.
  destruct (getFriends_after_deleteFriend u f d Hok)
    as (stored & Hstored & Hstored').
  destruct (getFriends_any_order order_ids order_users u d Hids Husers)
    as (friends0 & stored0 & Hrun & Hrun0 & Hperm).
  rewrite Hrun in Hfriends. injection Hfriends as ->.
  rewrite Hstored in Hrun0. injection Hrun0 as <-.
  destruct (getFriends_any_order order_ids' order_users' u
              (fst (deleteFriend u f d)) Hids' Husers')
    as (friends' & stored' & Hrun' & Hrun0' & Hperm').
  rewrite Hstored' in Hrun0'. injection Hrun0' as <-.
  exists friends'. split; [exact Hrun'|].
  now rewrite Hperm', Hperm.
Qed.

Lemma deleteFriend_then_getFriends_witness :
  exists friends',
    AnyOrder.getFriends 1 reverse id (fst (deleteFriend 1 2 friends_example))
    = (fst (deleteFriend 1 2 friends_example), inr friends')
    /\ friends' ≡ₚ [User.mk 3 (Some "Cid") (Some "cid@example.org")].
Proof.
  apply (deleteFriend_then_getFriends reverse reverse reverse id 1 2
           friends_example
           [User.mk 3 (Some "Cid") (Some "cid@example.org");
            User.mk 2 (Some "Bob") (Some "bob@example.org")]);
    first [apply rearranges_reverse | apply rearranges_id | reflexivity].
Defined.

(** X4: once [deleteFriend] has succeeded, [getFriend] no longer finds the
    removed friend. *)
Theorem deleteFriend_then_getFriend (u f : Z) (d : Db) :
  snd (deleteFriend u f d) = inr tt ->
  getFriend u f (fst (deleteFriend u f d)) = (fst (deleteFriend u f d), inr None).
Proof.
  intros Hok.
  destruct (decide (owed_row u f (balance d))) as [Ho|Hn];
    [rewrite (deleteFriend_fail u f d Ho) in Hok; discriminate|].
  rewrite (deleteFriend_ok u f d Hn). cbn [fst].
  unfold getFriend, findUnique, gets. cbn [set_balance user balance].
  match goal with
  | |- context [head ?l] => assert (E : l = [])
  end; [|now rewrite E].
  apply elem_of_nil_inv. intros x Hx.
  apply list_elem_of_filter in Hx as [[Hid Hex] _].
  apply Exists_exists in Hex as (b & Hb & Hbu & Hbf).
  apply list_elem_of_filter in Hb as [Hnb _]. apply Hnb.
  right. split; congruence.
Qed.

Lemma deleteFriend_then_getFriend_witness :
  getFriend 1 2 (fst (deleteFriend 1 2 friends_example))
  = (fst (deleteFriend 1 2 friends_example), inr None).
Proof.
  apply (deleteFriend_then_getFriend 1 2 friends_example). reflexivity.
Defined.

(** X5: on a store that keeps the mirrored-pair invariant, [getFriend] finds
    a user of the given id exactly when [getFriends] lists one. *)
Theorem getFriend_agrees_with_getFriends (u x : Z) (d : Db) :
  mirrored (balance d) ->
  (exists friend, snd (getFriend u x d) = inr (Some friend))
  <-> (exists friends friend,
         snd (getFriends u d) = inr friends
         /\ friend ∈ friends /\ User.id friend = x).
Proof.
  intros Hm. rewrite getFriends_eq. unfold getFriend, findUnique, gets.
  cbn [snd]. split.
  - intros (friend & [= Hhead]).
    apply head_Some_elem_of, list_elem_of_filter in Hhead as [[Hid Hex] Hin].
    eexists. exists friend. split; [reflexivity|]. split; [|exact Hid].
    apply list_elem_of_filter. split; [|exact Hin].
    apply elem_of_friend_ids. apply Exists_exists in Hex as ([a b c v] & Hb & Hbu & Hbf).
    simpl in *. subst. exists (Balance.mk u (User.id friend) c (- v)).
    split; [now apply Hm|]. split; reflexivity.
  - intros (friends & friend & [= <-] & Hin & Hid).
    apply list_elem_of_filter in Hin as [Hids Hin].
    apply elem_of_friend_ids in Hids as ([a b c v] & Hb & Hbu & Hbf).
    simpl in *. subst.
    destruct (head (filter _ (user d))) as [found|] eqn:E; [eauto|].
    exfalso. apply head_None in E.
    eapply (filter_nil_not_elem_of _ _ friend E); [|exact Hin].
    split; [reflexivity|]. apply Exists_exists.
    exists (Balance.mk (User.id friend) u c (- v)).
    split; [now apply Hm|]. split; reflexivity.
Qed.

Lemma getFriend_agrees_with_getFriends_witness :
  exists friend, snd (getFriend 1 3 friends_example) = inr (Some friend).
Proof.
  apply (getFriend_agrees_with_getFriends 1 3 friends_example
           ledger_example_mirrored).
  eexists _, (User.mk 3 (Some "Cid") (Some "cid@example.org")).
  split; [reflexivity|]. split; [|reflexivity].
  vm_compute. repeat constructor.
Defined.

Lemma filter_nil_Forall {A} (P : A -> Prop) `{!forall x, Decision (P x)}
    (l : list A) :
  filter P l = [] <-> Forall (fun x => ~ P x) l.
Proof.
  rewrite Forall_forall. split.
  - intros E x Hx HP. exact (filter_nil_not_elem_of _ _ x E HP Hx).
  - intros Hl. apply elem_of_nil_inv. intros x Hx.
    apply list_elem_of_filter in Hx as [HP Hx]. exact (Hl x Hx HP).
Qed.

(** The answer of [getBalancesWithFriend], in whatever order. *)
Lemma getBalancesWithFriend_answer (order : list Balance.t -> list Balance.t)
    (u f : Z) (d : Db) :
  rearranges order ->
  exists rows,
    AnyOrder.getBalancesWithFriend u order f d = (d, inr rows)
    /\ Forall (fun b => Balance.amount b <> 0) rows
    /\ (rows = [] <-> ~ owed_row u f (balance d)).
Proof.
  intros Horder. eexists. split; [reflexivity|].
  set (matching := filter (fun b => Balance.userId b = u /\ Balance.friendId b = f
                                    /\ Balance.amount b <> 0) (balance d)).
  split.
  - rewrite (Horder matching). apply Forall_forall. intros b Hb.
    apply list_elem_of_filter in Hb. tauto.
  - rewrite <- Permutation_nil_r, (Horder matching), Permutation_nil_r.
    unfold matching. rewrite filter_nil_Forall, Forall_forall. split.
    + intros Hnone (b & Hb & Hu & Hf & Ha). apply (Hnone b Hb). tauto.
    + intros Hno b Hb (Hu & Hf & Ha). apply Hno. exists b. tauto.
Qed.

Lemma deleteFriend_disabled_rows (rows : list Balance.t) :
  Forall (fun b => Balance.amount b <> 0) rows ->
  FriendPage.deleteFriend_disabled (Some rows) = false <-> rows = [].
Proof.
  intros Hnz.
  unfold FriendPage.deleteFriend_disabled, FriendPage.youLent, FriendPage.youOwe.
  cbn [fmap option_fmap option_map].
  rewrite negb_false_iff, andb_true_iff, !bool_decide_eq_true. split.
  - intros [[= Hp] [= Hn]].
    apply length_zero_iff_nil, filter_nil_Forall in Hp.
    apply length_zero_iff_nil, filter_nil_Forall in Hn.
    apply elem_of_nil_inv. intros b Hb.
    rewrite Forall_forall in Hp, Hn, Hnz.
    pose proof (Hp b Hb). pose proof (Hn b Hb). pose proof (Hnz b Hb). lia.
  - intros ->. split; reflexivity.
Qed.

(** X6: for a friend id other than 0 the delete button of the friend page
    is enabled exactly when [deleteFriend] would succeed on the store the
    balances were read from, in whatever order the store answered; for the
    friend id 0 or NaN the page does not send the query and the button is
    disabled, as it is while the balances are not there. *)
Theorem delete_button_agrees_with_deleteFriend
    (order : list Balance.t -> list Balance.t) (u f : Z) (d : Db) :
  rearranges order ->
  (f <> 0 ->
   FriendPage.deleteFriend_disabled
     (FriendPage.balances_data (Some f)
        (fun friendId => AnyOrder.getBalancesWithFriend u order friendId d))
   = false
   <-> snd (deleteFriend u f d) = inr tt)
  /\ (forall query,
        FriendPage.deleteFriend_disabled
          (FriendPage.balances_data (Some 0) query) = true
        /\ FriendPage.deleteFriend_disabled
             (FriendPage.balances_data None query) = true)
  /\ FriendPage.deleteFriend_disabled None = true.
Proof.
  intros Horder. split; [|split; [intros query; split|]; reflexivity].
  intros Hf.
  destruct (getBalancesWithFriend_answer order u f d Horder)
    as (rows & Hrun & Hnz & Hrows).
  unfold FriendPage.balances_data, FriendPage.enabled, FriendPage.query_data.
  rewrite (proj2 (Z.eqb_neq f 0) Hf), Hrun. cbn [negb snd].
  rewrite (deleteFriend_disabled_rows rows Hnz), Hrows. split.
  - intros Hno. now rewrite deleteFriend_ok.
  - intros Hok Ho. rewrite (deleteFriend_fail u f d Ho) in Hok. discriminate.
Qed.

Lemma delete_button_agrees_with_deleteFriend_witness :
  FriendPage.deleteFriend_disabled
    (FriendPage.balances_data (Some 2)
       (fun friendId =>
          AnyOrder.getBalancesWithFriend 1 reverse friendId ledger_example))
  = false.
Proof.
  apply (proj1 (delete_button_agrees_with_deleteFriend reverse 1 2
                  ledger_example rearranges_reverse));
    [lia|reflexivity].
Defined.

Lemma filter_negative_complement (rows : list Balance.t) :
  Forall (fun b => Balance.amount b <> 0) rows ->
  filter (fun b => 0 > Balance.amount b) rows
  = filter (fun b => ~ 0 < Balance.amount b) rows.
Proof.
  induction 1 as [|b rows Hb _ IH]; [reflexivity|].
  rewrite !filter_cons, IH. repeat case_decide; try reflexivity; lia.
Qed.

(** X7: for a friend id other than 0 the friend page shows every balance
    [getBalancesWithFriend] returned exactly once, as lent when its amount
    is positive and as owed when it is negative, in whatever order the store
    answered; for the friend id 0 or NaN it sends no query and has no
    balance to show. *)
Theorem youLent_youOwe_partition
    (order : list Balance.t -> list Balance.t) (u f : Z) (d : Db) :
  rearranges order ->
  (f <> 0 ->
   exists rows lent owe,
     AnyOrder.getBalancesWithFriend u order f d = (d, inr rows)
     /\ FriendPage.youLent
          (FriendPage.balances_data (Some f)
             (fun friendId => AnyOrder.getBalancesWithFriend u order friendId d))
        = Some lent
     /\ FriendPage.youOwe
          (FriendPage.balances_data (Some f)
             (fun friendId => AnyOrder.getBalancesWithFriend u order friendId d))
        = Some owe
     /\ lent ++ owe ≡ₚ rows
     /\ Forall (fun b => 0 < Balance.amount b) lent
     /\ Forall (fun b => Balance.amount b < 0) owe)
  /\ forall query,
       FriendPage.youLent (FriendPage.balances_data (Some 0) query) = None
       /\ FriendPage.youOwe (FriendPage.balances_data (Some 0) query) = None
       /\ FriendPage.youLent (FriendPage.balances_data None query) = None
       /\ FriendPage.youOwe (FriendPage.balances_data None query) = None.
Proof.
  intros Horder. split; [|intros query; repeat split; reflexivity].
  intros Hf.
  destruct (getBalancesWithFriend_answer order u f d Horder)
    as (rows & Hrun & Hnz & _).
  exists rows. eexists _, _. split; [exact Hrun|].
  unfold FriendPage.balances_data, FriendPage.enabled, FriendPage.query_data.
  rewrite (proj2 (Z.eqb_neq f 0) Hf), Hrun. cbn [negb snd].
  split; [reflexivity|]. split; [reflexivity|]. split; [|split].
  - rewrite (filter_negative_complement rows Hnz).
    apply filter_app_complement.
  - apply Forall_forall. intros b Hb. apply list_elem_of_filter in Hb. tauto.
  - apply Forall_forall. intros b Hb. apply list_elem_of_filter in Hb as [Hb _]. lia.
Qed.

Lemma youLent_youOwe_partition_witness :
  exists rows lent owe,
    AnyOrder.getBalancesWithFriend 1 reverse 3 ledger_example
    = (ledger_example, inr rows)
    /\ FriendPage.youLent
         (FriendPage.balances_data (Some 3)
            (fun friendId =>
               AnyOrder.getBalancesWithFriend 1 reverse friendId ledger_example))
       = Some lent
    /\ lent ++ owe ≡ₚ rows.
Proof.
  destruct (proj1 (youLent_youOwe_partition reverse 1 3 ledger_example
                     rearranges_reverse) ltac:(lia))
    as (rows & lent & owe & Hrun & Hlent & _ & Hperm & _).
  exists rows, lent, owe. split; [exact Hrun|]. split; [exact Hlent|exact Hperm].
Defined.

(** ** Invitations, again *)


(** What one invitation does to the store. *)
Lemma inviteFriend_run (sname semail : option string) (email : string)
    (send : option bool) (d : Db) :
  (exists friend,
     head (filter (fun u => User.email u = Some email) (user d)) = Some friend
     /\ inviteFriend sname semail email send d = (d, inr friend))
  \/ (filter (fun u => User.email u = Some email) (user d) = []
      /\ inviteFriend sname semail email send d
         = (set_outbox
              (fun o => o ++ (if default false send
                              then [(email, default (default "" semail) sname)]
                              else []))
              (set_user
                 (fun us => us ++ [User.mk (next_user_id us)
                                           (head (split "@" email)) (Some email)])
                 d),
            inr (User.mk (next_user_id (user d)) (head (split "@" email))
                         (Some email)))).
Proof.
  unfold inviteFriend, bind, findUnique, gets.
  destruct (head (filter _ (user d))) as [friend|] eqn:E.
  - left. eauto.
  - right. apply head_None in E. split; [exact E|].
    unfold user_create. destruct (default false send); simpl.
    + reflexivity.
    + unfold set_outbox, set_user. simpl. now rewrite app_nil_r.
Qed.

(** X8: inviting the same address a second time returns the user the first
    invitation returned and leaves the store as the first one left it: no
    second user row, no second mail, whoever asks and whatever the flag. *)
Theorem inviteFriend_twice (sname semail sname' semail' : option string)
    (email : string) (send send' : option bool) (d : Db) :
  exists friend once,
    inviteFriend sname semail email send d = (once, inr friend)
    /\ inviteFriend sname' semail' email send' once = (once, inr friend).
Proof.
  destruct (inviteFriend_run sname semail email send d)
    as [(friend & Hhead & ->)|[Hnone ->]].
  - exists friend, d. split; [reflexivity|].
    destruct (inviteFriend_run sname' semail' email send' d)
      as [(friend' & Hhead' & ->)|[Hnone' _]].
    + congruence.
    + rewrite Hnone' in Hhead. discriminate.
  - eexists _, _. split; [reflexivity|].
    match goal with
    | |- inviteFriend _ _ _ _ ?d1 = _ =>
        destruct (inviteFriend_run sname' semail' email send' d1)
          as [(friend' & Hhead' & ->)|[Hnone' _]]
    end.
    + cbn [set_outbox set_user user] in Hhead'.
      rewrite filter_app, Hnone, filter_cons, decide_True in Hhead' by reflexivity.
      simpl in Hhead'. congruence.
    + exfalso. cbn [set_outbox set_user user] in Hnone'.
      rewrite filter_app, Hnone, filter_cons, decide_True in Hnone' by reflexivity.
      discriminate.
Qed.

(** X9: an invitation mails at most once, and only when it created the user
    and the caller asked for the mail; the mail goes to the invited address
    and names the inviter by name, else by email, else by the empty string.
    The balance, expense, group and membership tables are never written. *)
Theorem inviteFriend_mail (sname semail : option string) (email : string)
    (send : option bool) (d : Db) :
  outbox (fst (inviteFriend sname semail email send d))
  = outbox d
    ++ (if decide (Exists (fun u => User.email u = Some email) (user d)) then []
        else if default false send
             then [(email, default (default "" semail) sname)]
             else [])
  /\ balance (fst (inviteFriend sname semail email send d)) = balance d
  /\ expense (fst (inviteFriend sname semail email send d)) = expense d
  /\ expenseParticipant (fst (inviteFriend sname semail email send d))
     = expenseParticipant d
  /\ group (fst (inviteFriend sname semail email send d)) = group d
  /\ groupUser (fst (inviteFriend sname semail email send d)) = groupUser d.
Proof.
  destruct (inviteFriend_run sname semail email send d)
    as [(friend & Hhead & ->)|[Hnone ->]]; cbn [fst].
  - rewrite decide_True; [now rewrite app_nil_r|].
    apply head_Some_elem_of, list_elem_of_filter in Hhead.
    apply Exists_exists. exists friend. tauto.
  - rewrite decide_False; [repeat split|].
    intros Hex. apply Exists_exists in Hex as (u & Hu & He).
    exact (filter_nil_not_elem_of _ _ u Hnone He Hu).
Qed.




(** ** The import page, whatever the file holds *)

Section ImportPageAnyFile.
Import ImportPage.
Variable JSON_parse : string -> JSError + Value.
Variable positive_after_conversion : Value -> bool.

Lemma keep_friend_true (v : Value) :
  keep_friend v = inr true ->
  get_property v "registration_status" = inr (VString "confirmed")
  /\ exists balance len,
       get_property v "balance" = inr balance
       /\ get_property balance "length" = inr len
       /\ truthy len = true.
Proof.
  unfold keep_friend.
  destruct (get_property v "balance") as [e|balance] eqn:Hbalance;
    [discriminate|].
  destruct (get_property balance "length") as [e|len] eqn:Hlength;
    [discriminate|].
  destruct (truthy len) eqn:Hlen; [|discriminate].
  destruct (get_property v "registration_status") as [e|status] eqn:Hstatus;
    [discriminate|].
  destruct status; try discriminate. intros [= Heq].
  change (String.eqb "confirmed" s = true) in Heq.
  apply String.eqb_eq in Heq as <-. split; [reflexivity|].
  exists balance, len. repeat split; assumption || reflexivity.
Qed.

Lemma friends_loop_sound (items acc kept : list Value) :
  friends_loop items acc = inr kept ->
  exists new,
    kept = acc ++ new /\ new `sublist_of` items
    /\ Forall (fun v => keep_friend v = inr true) new.
Proof.
  revert acc. induction items as [|v items IH]; intros acc; simpl.
  - intros [= <-]. exists []. rewrite app_nil_r. repeat constructor.
  - destruct (keep_friend v) as [e|keep] eqn:Hv; [discriminate|].
    intros Hloop. destruct (IH _ Hloop) as (new & -> & Hsub & Hall).
    destruct keep.
    + exists (v :: new). rewrite <- app_assoc. split; [reflexivity|].
      split; [now constructor|now constructor].
    + exists new. split; [reflexivity|]. split; [now constructor|exact Hall].
Qed.

Lemma keep_group_true (g : Value) :
  keep_group positive_after_conversion g = inr true ->
  (exists id, get_property g "id" = inr id /\ id <> VNumber 0)
  /\ exists members len,
       get_property g "members" = inr members
       /\ get_property members "length" = inr len
       /\ zero_lt positive_after_conversion len = true.
Proof.
  unfold keep_group.
  destruct (get_property g "members") as [e|members] eqn:Hmembers;
    [discriminate|].
  destruct (get_property members "length") as [e|len] eqn:Hlength;
    [discriminate|].
  destruct (zero_lt positive_after_conversion len) eqn:Hlen; [|discriminate].
  destruct (get_property g "id") as [e|id] eqn:Hg; [discriminate|].
  intros [= Hid]. split;
    [|exists members, len; repeat split; assumption || reflexivity].
  exists id. split; [reflexivity|]. intros ->. discriminate.
Qed.

Lemma filter_elements_sound (callback : Value -> JSError + bool)
    (elements kept : list Value) :
  filter_elements callback elements = inr kept ->
  kept `sublist_of` elements /\ Forall (fun v => callback v = inr true) kept.
Proof.
  revert kept. induction elements as [|v elements IH]; simpl; intros kept.
  - intros [= <-]. split; constructor.
  - destruct (callback v) as [e|keep] eqn:Hv; [discriminate|].
    destruct (filter_elements callback elements) as [e|kept'];
      [discriminate|].
    destruct (IH kept' eq_refl) as [Hsub Hall].
    intros [= <-]. destruct keep; split; try now constructor.
    exact Hall.
Qed.

(** X11: whatever the file holds, the friends the handler retains are
    either those retained before the upload, or elements of the file's
    [friends], in file order, each with registration status 'confirmed' and
    a balance whose [length] is truthy. *)
Theorem handleFileChange_friends_sound (file : File) (others : list File)
    (st : PageState) :
  usersWithBalance
    (handleFileChange JSON_parse positive_after_conversion (file :: others) st)
  = usersWithBalance st
  \/ exists json friends items,
       JSON_parse (file_text file) = inr json
       /\ get_property json "friends" = inr friends
       /\ iterate friends = inr items
       /\ usersWithBalance
            (handleFileChange JSON_parse positive_after_conversion
               (file :: others) st) `sublist_of` items
       /\ Forall (fun v =>
                    get_property v "registration_status"
                    = inr (VString "confirmed")
                    /\ exists balance len,
                         get_property v "balance" = inr balance
                         /\ get_property balance "length" = inr len
                         /\ truthy len = true)
                 (usersWithBalance
                    (handleFileChange JSON_parse positive_after_conversion
                       (file :: others) st)).
Proof.
  unfold handleFileChange, try_block, bind, lift, modify.
  change (head (file :: others)) with (Some file). cbv iota beta.
  destruct (JSON_parse (file_text file)) as [e|json] eqn:Hjson; [now left|].
  destruct (get_property json "friends") as [e|friends] eqn:Hfriends;
    [now left|].
  destruct (iterate friends) as [e|items] eqn:Hitems; [now left|].
  destruct (friends_loop items []) as [e|kept] eqn:Hloop; [now left|].
  right. exists json, friends, items.
  do 3 (split; [reflexivity || assumption|]).
  destruct (friends_loop_sound _ _ _ Hloop) as (new & -> & Hsub & Hall).
  assert (Hgoal : [] ++ new `sublist_of` items
                  /\ Forall (fun v =>
                       get_property v "registration_status"
                       = inr (VString "confirmed")
                       /\ exists balance len,
                            get_property v "balance" = inr balance
                            /\ get_property balance "length" = inr len
                            /\ truthy len = true) ([] ++ new)).
  { split; [exact Hsub|]. eapply Forall_impl; [exact Hall|].
    intros v Hv. now apply keep_friend_true. }
  destruct (ids_of ([] ++ new)); [exact Hgoal|].
  destruct (get_property json "groups"); [exact Hgoal|].
  destruct (array_filter _ _) as [e|keptg]; [exact Hgoal|].
  destruct (ids_of keptg); exact Hgoal.
Qed.

(** X12: whatever the file holds, the groups the handler retains are either
    those retained before the upload, or elements of the file's [groups]
    array, in file order, none with the id 0 and each with members whose
    [length] is above 0. *)
Theorem handleFileChange_groups_sound (file : File) (others : list File)
    (st : PageState) :
  groups
    (handleFileChange JSON_parse positive_after_conversion (file :: others) st)
  = groups st
  \/ exists json elements,
       JSON_parse (file_text file) = inr json
       /\ get_property json "groups" = inr (VArray elements)
       /\ groups
            (handleFileChange JSON_parse positive_after_conversion
               (file :: others) st) `sublist_of` elements
       /\ Forall (fun g =>
                    (exists id, get_property g "id" = inr id /\ id <> VNumber 0)
                    /\ exists members len,
                         get_property g "members" = inr members
                         /\ get_property members "length" = inr len
                         /\ zero_lt positive_after_conversion len = true)
                 (groups
                    (handleFileChange JSON_parse positive_after_conversion
                       (file :: others) st)).
Proof.
  unfold handleFileChange, try_block, bind, lift, modify.
  change (head (file :: others)) with (Some file). cbv iota beta.
  destruct (JSON_parse (file_text file)) as [e|json] eqn:Hjson; [now left|].
  destruct (get_property json "friends") as [e|friends]; [now left|].
  destruct (iterate friends) as [e|items]; [now left|].
  destruct (friends_loop items []) as [e|kept]; [now left|].
  destruct (ids_of kept) as [e|userIds]; [now left|].
  destruct (get_property json "groups") as [e|gs] eqn:Hgroups; [now left|].
  destruct (array_filter _ gs) as [e|keptg] eqn:Hgs; [now left|].
  destruct gs; try discriminate. simpl in Hgs.
  destruct (filter_elements_sound _ _ _ Hgs) as [Hsub Hall].
  right. exists json, elements.
  do 2 (split; [reflexivity || assumption|]).
  assert (Hgoal : keptg `sublist_of` elements
                  /\ Forall (fun g =>
                       (exists id, get_property g "id" = inr id /\ id <> VNumber 0)
                       /\ exists members len,
                            get_property g "members" = inr members
                            /\ get_property members "length" = inr len
                            /\ zero_lt positive_after_conversion len = true)
                     keptg).
  { split; [exact Hsub|]. eapply Forall_impl; [exact Hall|].
    intros g Hg. now apply keep_group_true. }
  destruct (ids_of keptg); exact Hgoal.
Qed.

(** X13: an upload that goes through replaces what an earlier upload left:
    the retained friends and groups, the selections and the file depend on
    the uploaded file alone, and no error is reported. *)
Theorem handleFileChange_replaces (file : File) (others : list File)
    (st earlier : PageState) :
  snd (try_block JSON_parse positive_after_conversion file
         (setUploadedFile file st)) = inr tt ->
  handleFileChange JSON_parse positive_after_conversion (file :: others) earlier
  = mkPage
      (usersWithBalance
         (handleFileChange JSON_parse positive_after_conversion (file :: others) st))
      (groups
         (handleFileChange JSON_parse positive_after_conversion (file :: others) st))
      (selectedUsers
         (handleFileChange JSON_parse positive_after_conversion (file :: others) st))
      (selectedGroups
         (handleFileChange JSON_parse positive_after_conversion (file :: others) st))
      (Some file) (toasts earlier).
Proof.
  unfold handleFileChange, try_block, bind, lift, modify.
  change (head (file :: others)) with (Some file). cbv iota beta.
  destruct (JSON_parse (file_text file)) as [e|json]; [discriminate|].
  destruct (get_property json "friends") as [e|friends]; [discriminate|].
  destruct (iterate friends) as [e|items]; [discriminate|].
  destruct (friends_loop items []) as [e|kept]; [discriminate|].
  destruct (ids_of kept) as [e|userIds]; [discriminate|].
  destruct (get_property json "groups") as [e|gs]; [discriminate|].
  destruct (array_filter _ gs) as [e|keptg]; [discriminate|].
  destruct (ids_of keptg) as [e|groupIds]; [discriminate|].
  reflexivity.
Qed.
End ImportPageAnyFile.

Lemma handleFileChange_replaces_witness :
  ImportPage.handleFileChange (fun _ => inr ImportPage.export_example)
    (fun _ => false) [ImportPage.mkFile "export.json" "an export"]
    (ImportPage.mkPage [ImportPage.VNull] [ImportPage.VNull] [] [] None ["x"])
  = ImportPage.mkPage [ImportPage.friend_example] [ImportPage.group_example]
      [ImportPage.VNumber 7] [ImportPage.VNumber 31]
      (Some (ImportPage.mkFile "export.json" "an export")) ["x"].
Proof.
  apply (handleFileChange_replaces (fun _ => inr ImportPage.export_example)
           (fun _ => false) (ImportPage.mkFile "export.json" "an export") []
           ImportPage.empty_page).
  reflexivity.
Defined.

(** ** Every ordering is within reach of [shuffleArray] *)

Section ShuffleArrayReach.
Context {V : Type} (undefined : V).

Lemma random_of_in_range (draws : list Z) : draws_in_range (random_of draws).
Proof.
  intros calls currentIndex Hpos. unfold random_of.
  case_decide; lia.
Qed.

Lemma shuffle_body_at (array : list V) (n r : nat) (x y : V) :
  array !! r = Some x -> array !! n = Some y ->
  exists accesses,
    shuffle_body undefined (Z.of_nat r) array (Z.of_nat (S n))
    = (<[r := y]> (<[n := x]> array), Z.of_nat n, accesses).
Proof.
  intros Hr Hn. unfold shuffle_body.
  replace (Z.of_nat (S n) - 1) with (Z.of_nat n) by lia.
  rewrite (array_get_in_bounds _ _ _ _ Hr), (array_get_in_bounds _ _ _ _ Hn).
  rewrite (array_set_in_bounds _ array n) by (eapply lookup_lt_Some; eauto).
  rewrite array_set_in_bounds
    by (rewrite length_insert; eapply lookup_lt_Some; eauto).
  eexists. reflexivity.
Qed.

Lemma shuffle_loop_shift (random : nat -> Z -> Z) (fuel calls : nat)
    (array : list V) (currentIndex : Z) (log : list (Z * nat)) :
  shuffle_loop undefined fuel random (S calls) array currentIndex log
  = shuffle_loop undefined fuel (fun k => random (S k)) calls array
      currentIndex log.
Proof.
  revert calls array currentIndex log.
  induction fuel as [|fuel IH]; intros calls array currentIndex log.
  - reflexivity.
  - cbn [shuffle_loop]. destruct (decide (0 = currentIndex)); [reflexivity|].
    destruct (shuffle_body undefined (random (S calls) currentIndex) array
                currentIndex)
      as [[array' currentIndex'] accesses].
    apply IH.
Qed.

Lemma last_split (q : list V) (m : nat) (x : V) :
  length q = S m -> q !! m = Some x -> q = take m q ++ [x].
Proof.
  intros Hlen Hx. rewrite <- (take_drop m q) at 1. f_equal.
  rewrite (drop_S _ _ _ Hx). now rewrite drop_ge by lia.
Qed.

Lemma shuffle_loop_reaches (target : list V) :
  forall (prefix suffix : list V) (log : list (Z * nat)),
    target ≡ₚ prefix ->
    exists draws log',
      shuffle_loop undefined (length prefix) (random_of draws) 0
        (prefix ++ suffix) (Z.of_nat (length prefix)) log
      = Some (target ++ suffix, log').
Proof.
  induction target as [|x target IH] using rev_ind;
    intros prefix suffix log Hperm.
  - apply Permutation_nil_l in Hperm as <-.
    exists [], log. reflexivity.
  - assert (Hlen : length prefix = S (length target)).
    { rewrite <- Hperm, length_app. simpl. lia. }
    assert (Hx : x ∈ prefix).
    { rewrite <- Hperm. apply elem_of_app. right. now left. }
    apply list_elem_of_lookup in Hx as [r Hr].
    pose proof (lookup_lt_Some _ _ _ Hr) as Hrlt.
    destruct (lookup_lt_is_Some_2 prefix (length target) ltac:(lia))
      as [y Hy].
    set (m := length target) in *.
    set (q := <[r := y]> (<[m := x]> prefix)).
    assert (Hq : q !! m = Some x).
    { unfold q. destruct (decide (r = m)) as [->|Hne].
      - rewrite Hr in Hy. injection Hy as <-.
        apply list_lookup_insert_eq. rewrite length_insert. lia.
      - rewrite list_lookup_insert_ne by exact Hne.
        apply list_lookup_insert_eq. lia. }
    assert (Hqlen : length q = S m).
    { unfold q. now rewrite !length_insert. }
    assert (Hqperm : q ≡ₚ prefix).
    { unfold q. now apply Permutation_insert_swap. }
    pose proof (last_split q m x Hqlen Hq) as Hsplit.
    assert (Hrest : target ≡ₚ take m q).
    { apply (Permutation_app_inv_r [x]).
      now rewrite <- Hsplit, Hqperm. }
    destruct (shuffle_body_at (prefix ++ suffix) m r x y) as [acc Hbody].
    { now apply lookup_app_l_Some. }
    { now apply lookup_app_l_Some. }
    destruct (IH (take m q) (x :: suffix) (log ++ acc) Hrest)
      as (draws & log' & Hloop).
    exists (Z.of_nat r :: draws), log'.
    rewrite Hlen. cbn [shuffle_loop]. rewrite decide_False by lia.
    assert (Hdraw : random_of (Z.of_nat r :: draws) 0 (Z.of_nat (S m))
                    = Z.of_nat r).
    { unfold random_of.
      change (default 0 ((Z.of_nat r :: draws) !! 0%nat)) with (Z.of_nat r).
      cbv zeta. rewrite decide_True by lia. reflexivity. }
    rewrite Hdraw, Hbody, shuffle_loop_shift.
    change (fun k => random_of (Z.of_nat r :: draws) (S k))
      with (random_of draws).
    rewrite !insert_app_l by (rewrite ?length_insert; lia).
    fold q. rewrite Hsplit, <- app_assoc. cbn [app].
    rewrite length_take, Hqlen, Nat.min_l in Hloop by lia.
    rewrite Hloop. now rewrite <- app_assoc.
Qed.
End ShuffleArrayReach.

(** X14: the swaps of [shuffleArray] can produce every ordering: for each
    permutation of the array there is a sequence of random index draws,
    each an index below [currentIndex], with which the loop leaves the
    array in exactly that order. *)
Theorem shuffleArray_reaches {V : Type} (undefined : V)
    (array target : list V) :
  target ≡ₚ array ->
  exists draws accesses,
    draws_in_range (random_of draws)
    /\ shuffleArray undefined (length array) (random_of draws) array
       = Some (target, accesses).
Proof.
  intros Hperm.
  destruct (shuffle_loop_reaches undefined target array [] [] Hperm)
    as (draws & log' & Hloop).
  exists draws, log'. split; [apply random_of_in_range|].
  unfold shuffleArray. rewrite !app_nil_r in Hloop. exact Hloop.
Qed.

Lemma shuffleArray_reaches_witness :
  exists draws accesses,
    shuffleArray "" 3 (random_of draws) ["a"; "b"; "c"]
    = Some (["c"; "a"; "b"], accesses).
Proof.
  destruct (shuffleArray_reaches "" ["a"; "b"; "c"] ["c"; "a"; "b"])
    as (draws & accesses & _ & Hrun).
  - change (["c"] ++ ["a"; "b"] ≡ₚ ["a"; "b"] ++ ["c"]).
    apply Permutation_app_comm.
  - exists draws, accesses. exact Hrun.
Defined.

(** ** [getExpenseDetails] *)

Section GetExpenseDetailsFacts.
Variable groupId_of : Expense.t -> option Z.
Variable order_participants
  : list ExpenseParticipant.t -> list ExpenseParticipant.t.
Variable order_groupUsers : list GroupUser.t -> list GroupUser.t.
Hypothesis participants_rearranged : rearranges order_participants.
Hypothesis groupUsers_rearranged : rearranges order_groupUsers.

Lemma total_amount_padding (stored : list ExpenseParticipant.t)
    (expenseId : string) (members : list GroupUser.t) :
  foldr Z.add 0
    (ExpenseParticipant.amount
       <$> stored ++ ((fun gu => ExpenseParticipant.mk expenseId
                                   (GroupUser.userId gu) 0) <$> members))
  = foldr Z.add 0 (ExpenseParticipant.amount <$> stored).
Proof.
  rewrite fmap_app, foldr_app. f_equal.
  induction members as [|gu members IH]; [reflexivity|].
  rewrite !fmap_cons. cbn [foldr ExpenseParticipant.amount]. exact IH.
Qed.

Lemma padded_plain (d : Db) (e : Expense.t) :
  (forall g, groupId_of e = Some g -> g <> 0 ->
     (exists row, row ∈ group d /\ Group.id row = g) -> False) ->
  padded groupId_of d e
    (order_participants
       (filter (fun p => ExpenseParticipant.expenseId p = Expense.id e)
               (expenseParticipant d))).
Proof.
  intros Hno. eexists _, []. rewrite app_nil_r. split; [reflexivity|].
  split; [apply participants_rearranged|]. split; [constructor|].
  split; [reflexivity|].
  intros g gu Hg Hg0 Hrow. destruct (Hno g Hg Hg0 Hrow).
Qed.

Lemma padded_group (d : Db) (e : Expense.t) (g : Z) :
  groupId_of e = Some g ->
  padded groupId_of d e
    (order_participants
       (filter (fun p => ExpenseParticipant.expenseId p = Expense.id e)
               (expenseParticipant d))
     ++ ((fun gu => ExpenseParticipant.mk (Expense.id e) (GroupUser.userId gu) 0)
         <$> order_groupUsers
               (filter (fun gu =>
                          GroupUser.groupId gu = g
                          /\ GroupUser.userId gu
                             ∉ (ExpenseParticipant.userId
                                  <$> order_participants
                                        (filter (fun p =>
                                                   ExpenseParticipant.expenseId p
                                                   = Expense.id e)
                                                (expenseParticipant d))))
                       (groupUser d)))).
Proof.
  intros Hgroup.
  set (stored := order_participants _).
  assert (Hstored : stored ≡ₚ filter (fun p => ExpenseParticipant.expenseId p
                                              = Expense.id e)
                                    (expenseParticipant d))
    by apply participants_rearranged.
  eexists _, _. split; [reflexivity|]. split; [exact Hstored|].
  split; [|split].
  - apply Forall_fmap, Forall_forall. intros gu Hgu.
    rewrite (groupUsers_rearranged _) in Hgu.
    apply list_elem_of_filter in Hgu as [[_ Hnot] _].
    cbn. split; [reflexivity|]. split; [reflexivity|].
    intros p' Hp' Hexp Huser. apply Hnot.
    apply list_elem_of_fmap. exists p'. split; [now symmetry|].
    rewrite Hstored. apply list_elem_of_filter. now split.
  - apply total_amount_padding.
  - intros g' gu Hg _ _ Hgu Hgid.
    rewrite Hgroup in Hg. injection Hg as <-.
    rewrite fmap_app, elem_of_app.
    destruct (decide (GroupUser.userId gu
                      ∈ (ExpenseParticipant.userId <$> stored)))
      as [Hin|Hout]; [now left|right].
    rewrite <- list_fmap_compose.
    apply list_elem_of_fmap. exists gu. split; [reflexivity|].
    rewrite (groupUsers_rearranged _).
    apply list_elem_of_filter. now split.
Qed.

Lemma getExpenseDetails_answer (d : Db) (input_expenseId : string) :
  exists answer,
    AnyOrder.getExpenseDetails groupId_of order_participants order_groupUsers
      input_expenseId d
    = (d, inr answer)
    /\ (answer = None
        <-> forall e, e ∈ expense d -> Expense.id e <> input_expenseId)
    /\ forall e participants,
         answer = Some (e, participants) ->
         e ∈ expense d /\ Expense.id e = input_expenseId
         /\ padded groupId_of d e participants.
Proof.
  unfold AnyOrder.getExpenseDetails, findUnique, AnyOrder.findMany, gets, bind, ret.
  destruct (head (filter (fun e => Expense.id e = input_expenseId) (expense d)))
    as [e|] eqn:He.
  - apply head_Some_elem_of, list_elem_of_filter in He as [Hid He].
    assert (Hfound : forall ps : list ExpenseParticipant.t,
      Some (e, ps) = None
      <-> forall e0, e0 ∈ expense d -> Expense.id e0 <> input_expenseId).
    { intros ps. split; [discriminate|]. intros H. destruct (H e He Hid). }
    assert (Hanswer : forall ps,
      padded groupId_of d e ps ->
      forall e' participants,
        Some (e, ps) = Some (e', participants) ->
        e' ∈ expense d /\ Expense.id e' = input_expenseId
        /\ padded groupId_of d e' participants).
    { intros ps Hps e' participants [= <- <-]. auto. }
    destruct (groupId_of e) as [groupId|] eqn:Hgroup.
    + destruct (decide (groupId = 0)) as [Hzero|Hzero].
      * eexists. split; [reflexivity|]. split; [apply Hfound|].
        apply Hanswer, padded_plain. rewrite Hgroup.
        intros g [= <-] Hg0. contradiction.
      * destruct (head (filter (fun g => Group.id g = groupId) (group d)))
          as [row|] eqn:Hrow.
        -- eexists. split; [reflexivity|]. split; [apply Hfound|].
           apply Hanswer, padded_group, Hgroup.
        -- eexists. split; [reflexivity|]. split; [apply Hfound|].
           apply Hanswer, padded_plain. rewrite Hgroup.
           intros g [= <-] _ (row & Hin & Hrid).
           apply head_None in Hrow.
           eapply (filter_nil_not_elem_of _ _ row); eauto.
    + eexists. split; [reflexivity|]. split; [apply Hfound|].
      apply Hanswer, padded_plain. rewrite Hgroup. discriminate.
  - exists None. split; [reflexivity|]. split; [|discriminate].
    split; [|reflexivity]. intros _ e He' Hid. apply head_None in He.
    eapply (filter_nil_not_elem_of _ _ e); eauto.
Qed.
End GetExpenseDetailsFacts.

(** X15: [getExpenseDetails] is a read that always answers, with null
    exactly when no expense has the id.  When it answers with an expense,
    in whatever order the store lists the participant rows and the group
    members, the participants it returns are the stored participant rows of
    that expense followed by added records that all have amount 0 and belong
    to users that have no stored row, so the amounts still sum to what the
    stored rows sum to; and when the expense has a group (an id other than
    0) that exists, every member of the group is among the returned
    participants. *)
Theorem getExpenseDetails_padding (groupId_of : Expense.t -> option Z)
    (order_participants : list ExpenseParticipant.t -> list ExpenseParticipant.t)
    (order_groupUsers : list GroupUser.t -> list GroupUser.t)
    (d : Db) (input_expenseId : string) :
  rearranges order_participants ->
  rearranges order_groupUsers ->
  exists answer,
    AnyOrder.getExpenseDetails groupId_of order_participants order_groupUsers
      input_expenseId d
    = (d, inr answer)
    /\ (answer = None
        <-> forall e, e ∈ expense d -> Expense.id e <> input_expenseId)
    /\ forall e participants,
         answer = Some (e, participants) ->
         e ∈ expense d /\ Expense.id e = input_expenseId
         /\ exists stored added,
              participants = stored ++ added
              /\ stored
                 ≡ₚ filter (fun p => ExpenseParticipant.expenseId p = Expense.id e)
                           (expenseParticipant d)
              /\ Forall (fun p =>
                           ExpenseParticipant.amount p = 0
                           /\ ExpenseParticipant.expenseId p = Expense.id e
                           /\ forall p', p' ∈ expenseParticipant d ->
                                ExpenseParticipant.expenseId p' = Expense.id e ->
                                ExpenseParticipant.userId p'
                                <> ExpenseParticipant.userId p)
                        added
              /\ foldr Z.add 0 (ExpenseParticipant.amount <$> participants)
                 = foldr Z.add 0 (ExpenseParticipant.amount <$> stored)
              /\ forall g gu,
                   groupId_of e = Some g -> g <> 0 ->
                   (exists row, row ∈ group d /\ Group.id row = g) ->
                   gu ∈ groupUser d -> GroupUser.groupId gu = g ->
                   GroupUser.userId gu
                   ∈ (ExpenseParticipant.userId <$> participants).
Proof.
  intros Hparticipants HgroupUsers.
  exact (getExpenseDetails_answer groupId_of order_participants
           order_groupUsers Hparticipants HgroupUsers d input_expenseId).
Qed.

Lemma getExpenseDetails_padding_witness :
  exists answer,
    AnyOrder.getExpenseDetails (fun _ => Some 7) reverse reverse "e1"
      expense_example
    = (expense_example, inr answer)
    /\ answer <> None.
Proof.
  destruct (getExpenseDetails_padding (fun _ => Some 7) reverse reverse
              expense_example "e1" rearranges_reverse rearranges_reverse)
    as (answer & Hrun & Hnone & _).
  exists answer. split; [exact Hrun|].
  intros Hnull.
  apply (proj1 Hnone Hnull (Expense.mk "e1" 1 "USD" 30 None)); [|reflexivity].
  vm_compute. repeat constructor.
Defined.

(** ** Removing a friend twice *)

Lemma filter_all {A} (P : A -> Prop) `{!forall x, Decision (P x)}
    (l : list A) :
  Forall P l -> filter P l = l.
Proof.
  induction 1 as [|x l Hx Hl IH]; [reflexivity|].
  rewrite filter_cons, decide_True by exact Hx. now rewrite IH.
Qed.

Lemma deleteFriend_nothing_left (u f : Z) (d : Db) :
  Forall (fun b => ~ between u f b) (balance d) ->
  deleteFriend u f d = (d, inr tt) /\ deleteFriend f u d = (d, inr tt).
Proof.
  intros Hnone. rewrite Forall_forall in Hnone.
  assert (Hsame : forall a b,
            (forall r, between a b r <-> between u f r) ->
            deleteFriend a b d = (d, inr tt)).
  { intros a b Hab. rewrite deleteFriend_ok.
    - f_equal. destruct d. unfold set_balance. cbn. f_equal.
      apply filter_all, Forall_forall. intros r Hr.
      rewrite Hab. now apply Hnone.
    - intros (r & Hr & Ha & Hb & _). apply (Hnone r Hr), Hab.
      left. now split. }
  split; apply Hsame; intros r; unfold between; tauto.
Qed.

(** X16: once [deleteFriend] has succeeded, the pair has no balance row
    left: [getBalancesWithFriend] returns the empty list, and a second
    [deleteFriend], asked by either of the two, succeeds and changes
    nothing. *)
Theorem deleteFriend_twice (u f : Z) (d : Db) :
  snd (deleteFriend u f d) = inr tt ->
  getBalancesWithFriend u f (fst (deleteFriend u f d))
  = (fst (deleteFriend u f d), inr [])
  /\ deleteFriend u f (fst (deleteFriend u f d))
     = (fst (deleteFriend u f d), inr tt)
  /\ deleteFriend f u (fst (deleteFriend u f d))
     = (fst (deleteFriend u f d), inr tt).
Proof.
  intros Hok.
  destruct (decide (owed_row u f (balance d))) as [Ho|Hno];
    [rewrite (deleteFriend_fail u f d Ho) in Hok; discriminate|].
  rewrite (deleteFriend_ok u f d Hno). cbn [fst].
  assert (Hnone : Forall (fun b => ~ between u f b)
                    (balance (set_balance (filter (fun b => ~ between u f b)) d))).
  { destruct d. cbn. apply Forall_forall. intros b Hb.
    now apply list_elem_of_filter in Hb as [Hb _]. }
  split; [|now apply deleteFriend_nothing_left].
  rewrite getBalancesWithFriend_eq. do 2 f_equal.
  apply filter_nil_Forall. eapply Forall_impl; [exact Hnone|].
  cbv beta. intros b Hb (Hu & Hf & _). apply Hb. left. now split.
Qed.

Lemma deleteFriend_twice_witness :
  deleteFriend 2 1 (fst (deleteFriend 1 2 friends_example))
  = (fst (deleteFriend 1 2 friends_example), inr tt).
Proof.
  apply (proj2 (proj2 (deleteFriend_twice 1 2 friends_example eq_refl))).
Defined.
